(** * A verified model of the boolean retrieval engine

    This development embeds [boolean_retrieval_model.py], the class
    [InformationRetrievalSystem], and states the properties of its index
    construction, its snapshot format and its query evaluators.

    Conventions of the embedding.
    - A Python [str] is a [string]; its characters are code points below 256.
      The character classes of [re] and of the [str] methods are taken at
      their values on that range.
    - A Python [int] is a [Z].
    - A [dict] is a [gmap], a [set] is a [gset]; a JSON object read from or
      written to disk is an association list in key order.
    - The Porter stemmer and the built-in [hash] are parameters.
    - An exception that reaches the caller is a value of [outcome]. *)

From Stdlib Require Import ZArith Ascii String DecimalString DecimalZ.
From stdpp Require Import base option list gmap sets strings sorting.

Local Open Scope Z_scope.

(** ** Characters *)

Module Char.

Definition code (c : ascii) : N := N_of_ascii c.

Definition between (lo hi : N) (c : ascii) : bool :=
  ((lo <=? code c) && (code c <=? hi))%N.

(** [str.isspace], which is also [\s] of [re] on [str] patterns. *)
Definition is_space (c : ascii) : bool :=
  between 9 13 c || between 28 32 c || (code c =? 133)%N || (code c =? 160)%N.

(** [\d] of [re]: the decimal digits. *)
Definition is_digit (c : ascii) : bool := between 48 57 c.

(** The class [[a-zA-Z]]. *)
Definition is_letter (c : ascii) : bool := between 65 90 c || between 97 122 c.

(** [\w] of [re]: alphanumeric characters and the underscore. *)
Definition is_word (c : ascii) : bool :=
  is_letter c || is_digit c || (code c =? 95)%N
  || (code c =? 170)%N || (code c =? 178)%N || (code c =? 179)%N
  || (code c =? 181)%N || (code c =? 185)%N || (code c =? 186)%N
  || between 188 190 c || between 192 214 c || between 216 246 c
  || between 248 255 c.

(** [str.lower] on one character. *)
Definition lower (c : ascii) : ascii :=
  if between 65 90 c || between 192 214 c || between 216 222 c
  then ascii_of_N (code c + 32)
  else c.

Definition eqb (a b : ascii) : bool := bool_decide (a = b).

End Char.

(** ** Strings: the [str] methods the engine calls *)

Module Str.

Fixpoint lower (s : string) : string :=
  match s with
  | EmptyString => EmptyString
  | String c r => String (Char.lower c) (lower r)
  end.

Fixpoint lstrip (s : string) : string :=
  match s with
  | String c r => if Char.is_space c then lstrip r else s
  | EmptyString => EmptyString
  end.

(** [rstrip]: a character is dropped when everything from it on is
    white space. *)
Fixpoint rstrip (s : string) : string :=
  match s with
  | EmptyString => EmptyString
  | String c r =>
      match rstrip r with
      | EmptyString => if Char.is_space c then EmptyString else String c EmptyString
      | r' => String c r'
      end
  end.

Definition strip (s : string) : string := rstrip (lstrip s).

(** [sub in s], via [startswith] at every position. *)
Fixpoint startswith (sub s : string) : bool :=
  match sub, s with
  | EmptyString, _ => true
  | String a sub', String b s' => Char.eqb a b && startswith sub' s'
  | String _ _, EmptyString => false
  end.

Fixpoint contains (sub s : string) : bool :=
  startswith sub s ||
  match s with
  | EmptyString => false
  | String _ r => contains sub r
  end.

Fixpoint endswith (sub s : string) : bool :=
  bool_decide (s = sub) ||
  match s with
  | EmptyString => false
  | String _ r => endswith sub r
  end.

(** [s.split()]: the maximal runs of characters that are not white space. *)
Fixpoint split_go (cur : option string) (s : string) : list string :=
  match s with
  | EmptyString => option_list (String.rev <$> cur)
  | String c r =>
      if Char.is_space c
      then option_list (String.rev <$> cur) ++ split_go None r
      else split_go (Some (String c (default EmptyString cur))) r
  end.

Definition split (s : string) : list string := split_go None s.

Fixpoint drop (n : nat) (s : string) : string :=
  match n, s with
  | O, _ => s
  | S n', String _ r => drop n' r
  | S _, EmptyString => EmptyString
  end.

Fixpoint take (n : nat) (s : string) : string :=
  match n, s with
  | O, _ => EmptyString
  | S n', String c r => String c (take n' r)
  | S _, EmptyString => EmptyString
  end.

(** [s[a:b]] for indices within range. *)
Definition slice (a b : nat) (s : string) : string := take (b - a) (drop a s).

Fixpoint join (sep : string) (l : list string) : string :=
  match l with
  | [] => EmptyString
  | [x] => x
  | x :: r => x +:+ sep +:+ join sep r
  end.

End Str.

(** ** Integers and text: the built-ins [str] and [int] *)

Module Int.

(** [str(z)]: decimal digits, with a leading minus sign when negative. *)
Definition str (z : Z) : string := NilZero.string_of_int (Z.to_int z).

(** The digit groups of an integer literal: single underscores may stand
    between digits and are dropped. [prev] tells whether the previous
    character was a digit. *)
Fixpoint digits_go (prev : bool) (s : string) : option string :=
  match s with
  | EmptyString => if prev then Some EmptyString else None
  | String c r =>
      if Char.is_digit c then String c <$> digits_go true r
      else if (Char.code c =? 95)%N
           then (if prev then digits_go false r else None)
           else None
  end.

Definition digits (s : string) : option string :=
  match s with
  | EmptyString => None
  | String c _ => if Char.is_digit c then digits_go false s else None
  end.

(** [int(s)]: surrounding white space is ignored, a sign may lead;
    [None] stands for [ValueError]. *)
Definition of_str (s : string) : option Z :=
  let s := Str.strip s in
  let '(neg, body) :=
    match s with
    | String "-"%char r => (true, r)
    | String "+"%char r => (false, r)
    | _ => (false, s)
    end in
  match digits body with
  | None => None
  | Some ds =>
      match NilEmpty.uint_of_string ds with
      | None => None
      | Some d => Some (if neg : bool then - Z.of_uint d else Z.of_uint d)
      end
  end.

(** [str(l)] for a list of integers. *)
Definition str_list (l : list Z) : string :=
  "[" +:+ Str.join ", " (str <$> l) +:+ "]".

End Int.

(** ** The three regular expressions of the engine *)

Module Re.

Fixpoint skip_space (s : string) : string :=
  match s with
  | String c r => if Char.is_space c then skip_space r else s
  | EmptyString => EmptyString
  end.

Fixpoint span_digits (s : string) : string * string :=
  match s with
  | String c r =>
      if Char.is_digit c
      then let '(ds, rest) := span_digits r in (String c ds, rest)
      else (EmptyString, s)
  | EmptyString => (EmptyString, EmptyString)
  end.

(** The alternation [(AND|OR|NOT)] at the start of [s]. *)
Definition operator (s : string) : option string :=
  if Str.startswith "AND" s then Some "AND"
  else if Str.startswith "OR" s then Some "OR"
  else if Str.startswith "NOT" s then Some "NOT"
  else None.

(** [\s+(AND|OR|NOT)\s+] anchored at the start of [s]: the operator and
    the length of the match. Both runs of white space are greedy, and
    neither can give a character back: what follows each of them is not
    white space. *)
Definition separator (s : string) : option (string * nat) :=
  match s with
  | String c _ =>
      if Char.is_space c then
        let s1 := skip_space s in
        match operator s1 with
        | Some op =>
            let s2 := Str.drop (String.length op) s1 in
            match s2 with
            | String c2 _ =>
                if Char.is_space c2
                then Some (op, (String.length s - String.length (skip_space s2))%nat)
                else None
            | EmptyString => None
            end
        | None => None
        end
      else None
  | EmptyString => None
  end.

(** [re.split(r'\s+(AND|OR|NOT)\s+', s)]. The scanner moves one character
    at a time; [skip] counts the characters of the current match that are
    still to be passed over, [cur] holds the text since the last match,
    newest character first. *)
Fixpoint split_go (skip : nat) (cur : string) (s : string) : list string :=
  match s with
  | EmptyString => [String.rev cur]
  | String c r =>
      match skip with
      | S k => split_go k cur r
      | O =>
          match separator s with
          | Some (op, len) => String.rev cur :: op :: split_go (len - 1) EmptyString r
          | None => split_go O (String c cur) r
          end
      end
  end.

Definition split (s : string) : list string := split_go O EmptyString s.

(** [\s+(/\s*(\d+))$] anchored at the start of [s]; the result is group 3.
    [$] holds at the end of the text and just before a last newline. *)
Definition tail (s : string) : option string :=
  match s with
  | String c r =>
      if Char.is_space c then
        match skip_space r with
        | String "/"%char r1 =>
            let '(ds, rest) := span_digits (skip_space r1) in
            match ds with
            | EmptyString => None
            | _ => if bool_decide (rest = EmptyString) || bool_decide (rest = String "010"%char EmptyString)
                   then Some ds else None
            end
        | _ => None
        end
      else None
  | EmptyString => None
  end.

(** [re.match(r'(.*?)\s+(/\s*(\d+))$', s)]: groups 1 and 3. The lazy
    [.*?] is tried at every length from zero on; [.] stops at a newline. *)
Fixpoint match_proximity (s : string) : option (string * string) :=
  match tail s with
  | Some ds => Some (EmptyString, ds)
  | None =>
      match s with
      | String c r =>
          if Char.eqb c "010"%char then None
          else (fun '(a, ds) => (String c a, ds)) <$> match_proximity r
      | EmptyString => None
      end
  end.

(** [re.findall(r'\b[a-zA-Z]+\b', s)]: the maximal runs of letters with no
    word character on either side. [prev] tells whether the previous
    character was a word character; [cur] is the run being read, newest
    letter first, or [None] outside a run that can match. *)
Fixpoint findall_go (prev : bool) (cur : option string) (s : string) : list string :=
  match s with
  | EmptyString => option_list (String.rev <$> cur)
  | String c r =>
      match cur with
      | Some run =>
          if Char.is_letter c then findall_go true (Some (String c run)) r
          else if Char.is_word c then findall_go true None r
          else String.rev run :: findall_go false None r
      | None =>
          if Char.is_letter c && negb prev
          then findall_go true (Some (String c EmptyString)) r
          else findall_go (Char.is_word c) None r
      end
  end.

Definition findall_words (s : string) : list string := findall_go false None s.

End Re.

(** ** The engine state *)

(** The three index attributes of [InformationRetrievalSystem]:
    [doc_ids] maps a doc_id to its file name, [inverted_index] a term to its
    posting list, [positional_index] a term to the positions of its
    occurrences per document. *)
Record indexes := Indexes {
  doc_ids : gmap Z string;
  inverted_index : gmap string (list Z);
  positional_index : gmap string (gmap Z (list Z));
}.

(** The indexes as [__init__] creates them. *)
Definition empty_indexes : indexes := Indexes ∅ ∅ ∅.

Inductive exn := RecursionError | ValueError.

Inductive outcome :=
  | Ok (ids : list Z)
  | Raise (e : exn).

(** What a call of a query method amounts to: the value returned or the
    exception raised, the lines printed, and the indexes afterwards. *)
Record run := Run {
  value : outcome;
  printed : list string;
  final : indexes;
}.

(** [sorted(l)] on integers. *)
Definition sorted (l : list Z) : list Z := merge_sort Z.le l.

(** [d.get(k, [])]. *)
Definition get (d : gmap string (list Z)) (k : string) : list Z :=
  default [] (d !! k).

(** [set(d.get(k, []))]. *)
Definition get_set (d : gmap string (list Z)) (k : string) : gset Z :=
  list_to_set (get d k).

(** [d[term][doc_id]] on the positional index, a [defaultdict] of
    [defaultdict(list)]: reading a missing key inserts the default value, so
    the read returns the positions together with the dictionary afterwards. *)
Definition getitem2 (d : gmap string (gmap Z (list Z))) (term : string) (doc_id : Z)
    : list Z * gmap string (gmap Z (list Z)) :=
  let inner := default ∅ (d !! term) in
  let positions := default [] (inner !! doc_id) in
  (positions, <[term := <[doc_id := positions]> inner]> d).

(** One step of the left-to-right evaluation. *)
Definition apply_operator (operator : string) (result term_docs : gset Z) : gset Z :=
  if bool_decide (operator = "AND") then result ∩ term_docs
  else if bool_decide (operator = "OR") then result ∪ term_docs
  else if bool_decide (operator = "NOT") then result ∖ term_docs
  else result.

(** The nested [for] loops over the two position lists, left by [break] at
    the first pair within distance [k]. *)
Definition within (k : Z) (positions1 positions2 : list Z) : bool :=
  existsb (fun pos1 => existsb (fun pos2 => Z.abs (pos1 - pos2) <=? k) positions2) positions1.

Definition invalid_format : string :=
  "Invalid proximity query format. Use 'term1 term2 /k'".
Definition only_two_terms : string :=
  "Proximity query supports only 2 terms. Use 'term1 term2 /k'".

Section Engine.

(** [self.stemmer.stem] and the built-in [hash] on strings. *)
Variable stem : string → string.
Variable hash : string → Z.

Section Queries.

Variable self : indexes.

(** The lookup of one lower-cased term. *)
Definition term_docs (term : string) : gset Z :=
  get_set (inverted_index self) (stem term).

(** The [while] loop of [_process_boolean_query] over [tokens[1:]]. *)
Fixpoint boolean_loop (result : gset Z) (tokens : list string) : gset Z :=
  match tokens with
  | operator :: token :: rest =>
      let term := Str.lower token in
      if bool_decide (term = EmptyString) then result
      else boolean_loop (apply_operator operator result (term_docs term)) rest
  | _ => result
  end.

(** [_process_boolean_query] on a query without an opening bracket. *)
Definition flat_boolean_query (query : string) : list Z :=
  match Re.split query with
  | [] => []
  | [token] => sorted (get (inverted_index self) (stem (Str.lower token)))
  | token :: rest => sorted (elements (boolean_loop (term_docs (Str.lower token)) rest))
  end.

(** The scan of [_process_bracketed_query]: the first closing bracket met
    while the stack is not empty, with the opening bracket it closes. *)
Fixpoint find_group (i : nat) (stack : list nat) (s : string) : option (nat * nat) :=
  match s with
  | EmptyString => None
  | String c r =>
      if Char.eqb c "("%char then find_group (S i) (i :: stack) r
      else if Char.eqb c ")"%char then
        match stack with
        | start :: _ => Some (start, i)
        | [] => find_group (S i) stack r
        end
      else find_group (S i) stack r
  end.

(** The second [while] loop, of [_process_bracketed_query]: a token equal
    to the placeholder stands for the result of the group. *)
Fixpoint bracketed_loop (placeholder : string) (inner_result : list Z)
    (result : gset Z) (tokens : list string) : gset Z :=
  match tokens with
  | operator :: term :: rest =>
      if bool_decide (term = EmptyString) then result
      else
        let docs := if bool_decide (term = placeholder) then list_to_set inner_result
                    else term_docs (Str.lower term) in
        bracketed_loop placeholder inner_result (apply_operator operator result docs) rest
  | _ => result
  end.

(** [_process_boolean_query] and [_process_bracketed_query] call each
    other; [fuel] is the depth of calls the interpreter still allows,
    and [None] stands for [RecursionError]. *)
Fixpoint _process_boolean_query (fuel : nat) (query : string) : option (list Z) :=
  match fuel with
  | O => None
  | S fuel =>
      if Str.contains "(" query then _process_bracketed_query fuel query
      else Some (flat_boolean_query query)
  end
with _process_bracketed_query (fuel : nat) (query : string) : option (list Z) :=
  match fuel with
  | O => None
  | S fuel =>
      if negb (Str.contains "(" query) then _process_boolean_query fuel query
      else
        match find_group 0 [] query with
        | Some (start, end_) =>
            let inner_expr := Str.strip (Str.slice (S start) end_ query) in
            inner_result ← _process_boolean_query fuel inner_expr;
            let placeholder := "RESULT_" +:+ Int.str (hash (Int.str_list inner_result)) in
            let new_query :=
              Str.take start query +:+ placeholder +:+ Str.drop (S end_) query in
            final_result ← _process_bracketed_query fuel new_query;
            let direct :=
              match final_result with
              | [d] => Str.startswith "RESULT_" (Int.str d)
              | _ => false
              end in
            if direct then Some inner_result
            else
              match Re.split new_query with
              | [] => Some []
              | token :: rest =>
                  let result :=
                    if bool_decide (token = placeholder) then list_to_set inner_result
                    else term_docs (Str.lower token) in
                  Some (sorted (elements (bracketed_loop placeholder inner_result result rest)))
              end
        | None => _process_boolean_query fuel query
        end
  end.

(** The [for] loop of [_process_proximity_query] over the common
    documents, threading [result_docs] and the positional index. The loop
    visits the set in the order of [elements]; the order of a Python set
    differs, which shows in neither the sorted result nor the dictionary. *)
Definition proximity_step (term1 term2 : string) (k : Z)
    (acc : list Z * gmap string (gmap Z (list Z))) (doc_id : Z)
    : list Z * gmap string (gmap Z (list Z)) :=
  let '(result_docs, pos) := acc in
  let '(positions1, pos) := getitem2 pos term1 doc_id in
  let '(positions2, pos) := getitem2 pos term2 doc_id in
  (if within k positions1 positions2 then result_docs ++ [doc_id] else result_docs, pos).

Definition _process_proximity_query (query : string) : run :=
  match Re.match_proximity query with
  | None => Run (Ok []) [invalid_format] self
  | Some (terms_part, digits) =>
      match Int.of_str digits with
      | None => Run (Raise ValueError) [] self
      | Some k =>
          match Str.split (Str.lower terms_part) with
          | [term1; term2] =>
              let stemmed1 := stem term1 in
              let stemmed2 := stem term2 in
              let common_docs :=
                get_set (inverted_index self) stemmed1 ∩ get_set (inverted_index self) stemmed2 in
              let '(result_docs, pos) :=
                foldl (proximity_step stemmed1 stemmed2 k) ([], positional_index self)
                      (elements common_docs) in
              Run (Ok (sorted result_docs)) []
                  (Indexes (doc_ids self) (inverted_index self) pos)
          | _ => Run (Ok []) [only_two_terms] self
          end
      end
  end.

(** The classification of [process_query] between a boolean query and a
    simple term. *)
Definition is_boolean (query : string) : bool :=
  Str.contains " AND " query || Str.contains " OR " query || Str.contains "NOT " query.

Definition simple_term_query (query : string) : list Z :=
  sorted (get (inverted_index self) (stem (Str.lower (Str.strip query)))).

Definition process_query (fuel : nat) (query : string) : run :=
  if Str.contains "/" query then _process_proximity_query query
  else if is_boolean query then
    Run (match _process_boolean_query fuel query with
         | Some ids => Ok ids
         | None => Raise RecursionError
         end) [] self
  else Run (Ok (simple_term_query query)) [] self.

End Queries.

End Engine.

(** ** Index construction *)

(** [os.path.join] of a folder and one name. *)
Definition path_join (folder name : string) : string :=
  if Str.startswith "/" name then name
  else if bool_decide (folder = EmptyString) || Str.endswith "/" folder then folder +:+ name
  else folder +:+ "/" +:+ name.

(** What [_read_document] does for a path: it returns the text of the file
    or raises with a message. *)
Inductive read_result :=
  | Content (text : string)
  | ReadError (message : string).

(** The local variables of the build pass next to the indexes. *)
Record build_state := BuildState {
  built : indexes;
  processed_docs : Z;
  failed_docs : list (string * string);
}.

(** [enumerate(l)], counting from [start]. *)
Fixpoint enumerate {A} (start : Z) (l : list A) : list (Z * A) :=
  match l with
  | [] => []
  | x :: r => (start, x) :: enumerate (start + 1) r
  end.

(** [self.positional_index[term][doc_id].append(position)]. *)
Definition append_position (pos : gmap string (gmap Z (list Z)))
    (term : string) (doc_id position : Z) : gmap string (gmap Z (list Z)) :=
  let inner := default ∅ (pos !! term) in
  <[term := <[doc_id := default [] (inner !! doc_id) ++ [position]]> inner]> pos.

(** [self.inverted_index[term].append(doc_id)]. *)
Definition append_posting (doc_id : Z) (term : string) (inv : gmap string (list Z))
    : gmap string (list Z) :=
  <[term := get inv term ++ [doc_id]]> inv.

Section Build.

Variable stem : string → string.

(** [self.stop_words], [self.docs_folder] and the file system the build
    reads. *)
Variable stop_words : gset string.
Variable docs_folder : string.
Variable read_document : string → read_result.

Definition _preprocess_text (text : string) : list (string * Z) :=
  let tokens := Re.findall_words (Str.lower text) in
  omap (fun '(pos, token) =>
          if bool_decide (token ∈ stop_words) then None
          else Some (stem token, pos))
       (enumerate 0 tokens).

(** The first inner loop: the terms of the document and its positions. *)
Definition index_token (doc_id : Z)
    (acc : gset string * gmap string (gmap Z (list Z))) (tp : string * Z)
    : gset string * gmap string (gmap Z (list Z)) :=
  let '(terms_in_doc, pos) := acc in
  let '(term, position) := tp in
  ({[term]} ∪ terms_in_doc, append_position pos term doc_id position).

(** The body of the [for] loop of [_build_indexes] for one directory
    entry. Each term of [terms_in_doc] gets one append, so the order in
    which the set is visited does not show. *)
Definition build_entry (b : build_state) (entry : Z * string) : build_state :=
  let '(doc_id, filename) := entry in
  if negb (Str.endswith ".txt" filename) then b
  else
    match read_document (path_join docs_folder filename) with
    | ReadError message =>
        BuildState (built b) (processed_docs b) (failed_docs b ++ [(filename, message)])
    | Content content =>
        let self := built b in
        let preprocessed_tokens := _preprocess_text content in
        let '(terms_in_doc, pos) :=
          foldl (index_token doc_id) (∅, positional_index self) preprocessed_tokens in
        let inv := set_fold (append_posting doc_id) (inverted_index self) terms_in_doc in
        BuildState (Indexes (<[doc_id := filename]> (doc_ids self)) inv pos)
                   (processed_docs b + 1) (failed_docs b)
    end.

(** The pass of [_build_indexes] over [os.listdir(self.docs_folder)],
    from the indexes [self] holds when it starts. *)
Definition build_pass (self : indexes) (listing : list string) : build_state :=
  foldl build_entry (BuildState self 0 []) (enumerate 0 listing).

(** The indexes of an engine built from scratch: the pass run on the empty
    indexes that [__init__] creates. *)
Definition build_from_scratch (listing : list string) : indexes :=
  built (build_pass empty_indexes listing).

End Build.

(** ** The snapshot *)

Record doc_info := DocInfo { filename : string; path : string }.
Record term_info := TermInfo { document_frequency : Z; postings : list Z }.
Record metadata := Metadata {
  total_documents : Z;
  total_terms : Z;
  created_at : string;
}.

(** The content of [indexes.json]. Each JSON object is the list of its
    members. *)
Record snapshot := Snapshot {
  snapshot_metadata : metadata;
  document_mapping : list (string * doc_info);
  snapshot_inverted_index : list (string * term_info);
  snapshot_positional_index : list (string * list (string * list Z));
}.

Section Store.

Variable docs_folder : string.

(** [_save_indexes]: the object handed to [json.dump]; [now] is
    [str(datetime.datetime.now())]. The members of each object are listed
    in the order of [map_to_list], where Python lists them in the order of
    insertion; [json.load] gives back the object that [json.dump] wrote. *)
Definition _save_indexes (now : string) (self : indexes) : snapshot :=
  Snapshot
    (Metadata (Z.of_nat (size (doc_ids self))) (Z.of_nat (size (inverted_index self))) now)
    ((fun '(doc_id, name) => (Int.str doc_id, DocInfo name (path_join docs_folder name)))
       <$> map_to_list (doc_ids self))
    ((fun '(term, l) => (term, TermInfo (Z.of_nat (length l)) l))
       <$> map_to_list (inverted_index self))
    ((fun '(term, inner) =>
        (term, (fun '(doc_id, positions) => (Int.str doc_id, positions)) <$> map_to_list inner))
       <$> map_to_list (positional_index self)).

(** The dictionary comprehension of [_load_indexes]: [None] when [int]
    raises on a key. *)
Fixpoint load_document_mapping (acc : gmap Z string) (items : list (string * doc_info))
    : option (gmap Z string) :=
  match items with
  | [] => Some acc
  | (key, info) :: rest =>
      match Int.of_str key with
      | None => None
      | Some doc_id => load_document_mapping (<[doc_id := filename info]> acc) rest
      end
  end.

Definition load_inverted_index (items : list (string * term_info)) : gmap string (list Z) :=
  foldl (fun inv '(term, info) => <[term := postings info]> inv) ∅ items.

(** The inner loop over the postings of one term. The target
    [self.positional_index[term]] is read, and so created when missing,
    before [int(doc_id)] is evaluated. *)
Fixpoint load_positions (term : string) (pos : gmap string (gmap Z (list Z)))
    (items : list (string * list Z)) : gmap string (gmap Z (list Z)) * option exn :=
  match items with
  | [] => (pos, None)
  | (key, positions) :: rest =>
      let inner := default ∅ (pos !! term) in
      match Int.of_str key with
      | None => (<[term := inner]> pos, Some ValueError)
      | Some doc_id => load_positions term (<[term := <[doc_id := positions]> inner]> pos) rest
      end
  end.

Fixpoint load_positional_index (pos : gmap string (gmap Z (list Z)))
    (items : list (string * list (string * list Z)))
    : gmap string (gmap Z (list Z)) * option exn :=
  match items with
  | [] => (pos, None)
  | (term, inner_items) :: rest =>
      match load_positions term pos inner_items with
      | (pos, None) => load_positional_index pos rest
      | failed => failed
      end
  end.

(** [_load_indexes] on the parsed file: the indexes afterwards and the
    exception raised, if any. The attributes are assigned one after the
    other, so a failure leaves the earlier assignments in place. *)
Definition _load_indexes (data : snapshot) (self : indexes) : indexes * option exn :=
  match load_document_mapping ∅ (document_mapping data) with
  | None => (self, Some ValueError)
  | Some ids =>
      let inv := load_inverted_index (snapshot_inverted_index data) in
      let '(pos, e) := load_positional_index ∅ (snapshot_positional_index data) in
      (Indexes ids inv pos, e)
  end.

End Store.

(** ** Construction of the engine *)

(** What [os.path.exists('indexes.json')] and [json.load] find. *)
Inductive disk :=
  | NoFile
  | Unreadable
  | File (data : snapshot).

Section Construction.

Variable stem : string → string.
Variable stop_words : gset string.
Variable docs_folder : string.
Variable read_document : string → read_result.

(** [_build_indexes]: the indexes afterwards and the snapshot written, if
    any. A snapshot that loads is used as it is. When the load raises, the
    build pass runs on the indexes as the load left them, and its result is
    saved. *)
Definition _build_indexes (file : disk) (now : string) (listing : list string)
    (self : indexes) : indexes * option snapshot :=
  let rebuild self :=
    let result := built (build_pass stem stop_words docs_folder read_document self listing) in
    (result, Some (_save_indexes docs_folder now result)) in
  match file with
  | File data =>
      match _load_indexes data self with
      | (loaded, None) => (loaded, None)
      | (partly, Some _) => rebuild partly
      end
  | NoFile | Unreadable => rebuild self
  end.

(** [__init__]: empty indexes, then [_build_indexes]. *)
Definition __init__ (file : disk) (now : string) (listing : list string)
    : indexes * option snapshot :=
  _build_indexes file now listing empty_indexes.

End Construction.

(** ** Statements of the specification *)

(** Following the specification's words for the boolean class: the query
    holds one of the operators as a word delimited by white space. *)
Definition has_operator_word (query : string) : bool :=
  existsb (fun w => bool_decide (w ∈ ["AND"; "OR"; "NOT"])) (Str.split query).

(** The tokens [op1; term1; ...; opn; termn] that follow the first term in
    the result of [re.split]. *)
Definition flatten_pairs (pairs : list (string * string)) : list string :=
  pairs ≫= (fun '(operator, term) => [operator; term]).

(** Following the specification's words for the evaluation without
    brackets: start with the postings of the first term and apply each
    (operator, term) pair to the running result, from left to right. *)
Definition left_to_right (stem : string → string) (self : indexes)
    (term0 : string) (pairs : list (string * string)) : gset Z :=
  foldl (fun result '(operator, term) =>
           apply_operator operator result (term_docs stem self (Str.lower term)))
        (term_docs stem self (Str.lower term0)) pairs.

(** The pairs before the first one whose term is empty. *)
Fixpoint until_empty_term (pairs : list (string * string)) : list (string * string) :=
  match pairs with
  | [] => []
  | (operator, term) :: rest =>
      if bool_decide (term = EmptyString) then []
      else (operator, term) :: until_empty_term rest
  end.

(** The position list of a term in a document, empty when there is none. *)
Definition positions_of (pos : gmap string (gmap Z (list Z))) (term : string) (doc_id : Z)
    : list Z :=
  default [] (pos !! term ≫= (.!! doc_id)).

Fixpoint all_chars (f : ascii → bool) (s : string) : bool :=
  match s with
  | EmptyString => true
  | String c r => f c && all_chars f r
  end.

Definition no_space (s : string) : bool := all_chars (fun c => negb (Char.is_space c)) s.

(** A term of a query as it is typed: not empty, no white space. *)
Definition is_term (t : string) : bool :=
  negb (bool_decide (t = EmptyString)) && no_space t.

(** The proximity query [term1 term2 /k]. *)
Definition proximity_query (term1 term2 : string) (k : Z) : string :=
  term1 +:+ " " +:+ term2 +:+ " /" +:+ Int.str k.



(** The test the loop of the proximity evaluator makes for one document, on
    the positional index as it is before the query. *)
Definition matches (self : indexes) (stem1 stem2 : string) (k doc_id : Z) : bool :=
  within k (positions_of (positional_index self) stem1 doc_id)
           (positions_of (positional_index self) stem2 doc_id).


Section BuildStatements.

Variable stem : string → string.
Variable stop_words : gset string.
Variable docs_folder : string.
Variable read_document : string → read_result.

(** The text of a directory entry that the build indexes: its name ends in
    [.txt] and it is read without an error. *)
Definition accepted (name : string) : option string :=
  if Str.endswith ".txt" name then
    match read_document (path_join docs_folder name) with
    | Content text => Some text
    | ReadError _ => None
    end
  else None.

(** The name and the text of the document that gets [doc_id], in a listing
    enumerated from [start]. *)
Fixpoint entry_at (start : Z) (listing : list string) (doc_id : Z) : option (string * string) :=
  match listing with
  | [] => None
  | name :: rest =>
      if bool_decide (doc_id = start) then (fun text => (name, text)) <$> accepted name
      else entry_at (start + 1) rest doc_id
  end.

(** The positions the build stores for a term of a text, and the terms of a
    text. *)
Definition stored_positions (term text : string) : list Z :=
  (filter (fun tp => tp.1 = term) (_preprocess_text stem stop_words text)).*2.

Definition terms_of (text : string) : gset string :=
  list_to_set (_preprocess_text stem stop_words text).*1.

(** The doc_ids of the documents of a listing that hold a term. *)
Definition documents_with (term : string) (start : Z) (listing : list string) : list Z :=
  omap (fun '(doc_id, name) =>
          match accepted name with
          | Some text => if bool_decide (term ∈ terms_of text) then Some doc_id else None
          | None => None
          end)
       (enumerate start listing).

(** Following the specification's words for the normalizer: the position of
    a token is its index among the tokens that are not stop words. *)
Definition retained_positions (text : string) : list (string * Z) :=
  (fun '(pos, token) => (stem token, pos))
    <$> enumerate 0 (filter (fun token => token ∉ stop_words)
                            (Re.findall_words (Str.lower text))).

End BuildStatements.

(** Following the specification's words for the doc_ids of a build: they
    are 0, 1, 2, ... without a gap. *)
Definition consecutive_ids (ids : gmap Z string) : Prop :=
  ∀ i, is_Some (ids !! i) ↔ 0 ≤ i < Z.of_nat (size ids).

Section EngineStates.

Variable stem : string → string.
Variable hash : string → Z.
Variable stop_words : gset string.
Variable docs_folder : string.
Variable read_document : string → read_result.


End EngineStates.

(** What the loader keeps of one term of a saved positional index: the
    term is set only when it has a document. *)
Definition kept (inner : gmap Z (list Z)) : option (gmap Z (list Z)) :=
  if bool_decide (inner = ∅) then None else Some inner.

(** ** A small corpus for the examples *)

Module Example.

(** A stemmer that returns its argument. The Porter stemmer does so on the
    words of the examples below. *)
Definition plain_stem (s : string) : string := s.

Definition constant_hash (_ : string) : Z := 42.

Definition tab : string := String "009"%char EmptyString.

(** The directory [docs] holds two documents and one other file. *)
Definition read_document (path : string) : read_result :=
  if bool_decide (path = "docs/a.txt") then Content "the cat saw the dog"
  else if bool_decide (path = "docs/b.txt") then Content "a bird saw the cat"
  else ReadError "No such file or directory".

Definition listing : list string := ["a.txt"; "notes.md"; "b.txt"].

Definition stop_words : gset string := {["the"; "a"]}.

Definition engine : indexes :=
  build_from_scratch plain_stem stop_words "docs" read_document listing.

End Example.

(** ** Statements about the code beside the specification *)

(** A doc_id that some posting list of the inverted index holds. *)
Definition posted (self : indexes) (doc_id : Z) : Prop :=
  ∃ term, doc_id ∈ get (inverted_index self) term.

(** The query [term1 OP term2] with one space on each side of the
    operator. *)
Definition binary_query (term1 operator term2 : string) : string :=
  term1 +:+ " " +:+ operator +:+ " " +:+ term2.

(** A term of a boolean query as it is typed: not empty, and free of white
    space, of slashes and of opening brackets. *)
Definition plain_term (t : string) : bool :=
  is_term t && negb (Str.contains "/" t) && negb (Str.contains "(" t).

(** The three operators of the boolean query. *)
Definition operators : list string := ["AND"; "OR"; "NOT"].

(** No posting list, no position map and no position list is empty. *)
Definition tidy (self : indexes) : Prop :=
  map_Forall (fun _ l => l ≠ []) (inverted_index self)
  ∧ map_Forall (fun _ inner => inner ≠ (∅ : gmap Z (list Z))
                               ∧ map_Forall (fun _ ps => ps ≠ []) inner)
               (positional_index self).

(** The documents of a listing that cannot be read, with the message. *)
Definition failures (docs_folder : string) (read_document : string → read_result)
    (listing : list string) : list (string * string) :=
  omap (fun name =>
          if Str.endswith ".txt" name then
            match read_document (path_join docs_folder name) with
            | ReadError message => Some (name, message)
            | Content _ => None
            end
          else None)
       listing.

(** The number of entries of a listing that the build indexes. *)
Definition indexed_count (docs_folder : string) (read_document : string → read_result)
    (listing : list string) : nat :=
  length (filter (fun name => is_Some (accepted docs_folder read_document name)) listing).

(** The keys of a JSON object that [int] accepts. *)
Definition integer_keys {A} (items : list (string * A)) : Prop :=
  Forall (fun item => is_Some (Int.of_str item.1)) items.

(** ** The stop words *)

(** What [open(self.stop_words_file, 'r')] finds: no file, or a file, given
    by the lines that the iteration over it yields. *)
Inductive stop_words_source :=
  | NotFound
  | Lines (lines : list string).

(** [_load_stop_words]: the set returned and the line printed, if any. *)
Definition _load_stop_words (stop_words_file : string) (source : stop_words_source)
    : gset string * list string :=
  match source with
  | Lines lines =>
      (foldl (fun stop_words line =>
                let word := Str.strip line in
                if bool_decide (word = EmptyString) then stop_words
                else {[word]} ∪ stop_words)
             ∅ lines,
       [])
  | NotFound =>
      (∅, ["Warning: Stop words file " +:+ stop_words_file +:+ " not found."])
  end.

(** A word of lower-case letters [a] to [z], as [_preprocess_text] forms
    them. *)
Definition is_lower_word (w : string) : bool :=
  negb (bool_decide (w = EmptyString)) && all_chars (Char.between 97 122) w.

(** ** The results as they are printed *)

(** [re.search(r'\d+', s)]: the first maximal run of decimal digits, [None]
    when [s] has no digit. *)
Fixpoint search_digits (s : string) : option string :=
  match s with
  | EmptyString => None
  | String c r => if Char.is_digit c then Some (Re.span_digits s).1 else search_digits r
  end.

(** The number [print_results] shows for a document: the first number in
    its file name, or the doc_id when the name has none ([AttributeError])
    or [int] refuses it ([ValueError]). *)
Definition file_number (filename : string) (doc_id : Z) : Z :=
  match search_digits filename with
  | Some run => default doc_id (Int.of_str run)
  | None => doc_id
  end.

(** The [for] loop of [print_results]: [None] stands for the [KeyError] of
    [self.doc_ids[doc_id]]. *)
Fixpoint print_loop (ids : gmap Z string) (file_numbers : list Z) (doc_ids : list Z)
    : option (list Z) :=
  match doc_ids with
  | [] => Some file_numbers
  | doc_id :: rest =>
      match ids !! doc_id with
      | Some filename => print_loop ids (file_numbers ++ [file_number filename doc_id]) rest
      | None => None
      end
  end.

Inductive print_outcome :=
  | Printed (result : option string) (lines : list string)
  | KeyError.

Definition no_matching_documents : string := "No matching documents found.".

(** [print_results]: the value returned and the line printed. *)
Definition print_results (self : indexes) (doc_ids_ : list Z) : print_outcome :=
  match doc_ids_ with
  | [] => Printed None [no_matching_documents]
  | _ =>
      match print_loop (doc_ids self) [] doc_ids_ with
      | Some numbers =>
          let result_str := Str.join ", " (Int.str <$> sorted numbers) in
          Printed (Some result_str) ["Result-Set: " +:+ result_str]
      | None => KeyError
      end
  end.

(** The number [print_results] shows for a doc_id of the document map. *)
Definition shown_number (self : indexes) (doc_id : Z) : Z :=
  file_number (default EmptyString (doc_ids self !! doc_id)) doc_id.

(** ** Brackets of a query *)

(** The opening brackets of [s] that no later closing bracket closes, when
    [depth] brackets are open at its start. A closing bracket that finds
    nothing open is passed over, as in the scan of
    [_process_bracketed_query]. *)
Fixpoint open_brackets (depth : nat) (s : string) : nat :=
  match s with
  | EmptyString => depth
  | String c r =>
      if Char.eqb c "("%char then open_brackets (S depth) r
      else if Char.eqb c ")"%char then open_brackets (pred depth) r
      else open_brackets depth r
  end.

(** The number of opening brackets of [s]. *)
Fixpoint opening_brackets (s : string) : nat :=
  match s with
  | EmptyString => 0
  | String c r => if Char.eqb c "("%char then S (opening_brackets r) else opening_brackets r
  end.

(** ** The interactive loop *)



Section Session.

Variable stem : string → string.
Variable hash : string → Z.


End Session.

(** * Properties *)

(** ** Strings *)

Lemma app_cons c s t : String c s +:+ t = String c (s +:+ t).
Proof. reflexivity. Qed.

Lemma app_nil_r_s s : s +:+ EmptyString = s.
Proof. induction s as [|c s IH]; [done|]. by rewrite app_cons, IH. Qed.

Lemma app_assoc_s s t u : (s +:+ t) +:+ u = s +:+ t +:+ u.
Proof. induction s as [|c s IH]; [done|]. by rewrite !app_cons, IH. Qed.

Lemma app_length_s s t : String.length (s +:+ t) = (String.length s + String.length t)%nat.
Proof. induction s as [|c s IH]; [done|]. rewrite app_cons. simpl. by rewrite IH. Qed.

Lemma startswith_spec sub s :
  Str.startswith sub s = true ↔ ∃ r, s = sub +:+ r.
Proof.
  revert s. induction sub as [|a sub IH]; intros s.
  - split; [intros _; by exists s|done].
  - destruct s as [|b s]; simpl.
    + split; [done|]. intros [r Hr]. by rewrite app_cons in Hr.
    + unfold Char.eqb. rewrite andb_true_iff, bool_decide_eq_true, IH. split.
      * intros [-> [r ->]]. by exists r.
      * intros [r Hr]. rewrite app_cons in Hr. simplify_eq. eauto.
Qed.

Lemma contains_spec sub s :
  Str.contains sub s = true ↔ ∃ p r, s = p +:+ sub +:+ r.
Proof.
  induction s as [|c s IH].
  - simpl. rewrite orb_false_r, startswith_spec. split.
    + intros [r Hr]. by exists EmptyString, r.
    + intros (p & r & Hpr). destruct p; [by exists r|by rewrite app_cons in Hpr].
  - cbn [Str.contains]. rewrite orb_true_iff, startswith_spec, IH. split.
    + intros [[r Hr]|(p & r & ->)].
      * by exists EmptyString, r.
      * by exists (String c p), r.
    + intros (p & r & Hpr). destruct p as [|c' p].
      * left. by exists r.
      * right. rewrite app_cons in Hpr. simplify_eq. by exists p, r.
Qed.

Section Classification.

Variable stem : string → string.
Variable hash : string → Z.

(** C7, as amended: a query without a slash goes to the boolean evaluator
    exactly when it contains one of the texts [" AND "], [" OR "] (one space
    on each side) or ["NOT "] (a space after, anything before); every other
    such query is looked up whole as one term, trimmed, lower-cased and
    stemmed. *)
Theorem classification_by_substring (self : indexes) (fuel : nat) (query : string) :
  Str.contains "/" query = false →
  (is_boolean query = true ↔
     ∃ p r, query = p +:+ " AND " +:+ r ∨ query = p +:+ " OR " +:+ r
            ∨ query = p +:+ "NOT " +:+ r)
  ∧ process_query stem hash self fuel query =
      if is_boolean query
      then Run (match _process_boolean_query stem hash self fuel query with
                | Some ids => Ok ids
                | None => Raise RecursionError
                end) [] self
      else Run (Ok (sorted (get (inverted_index self)
                                (stem (Str.lower (Str.strip query)))))) [] self.
Proof.
  intros Hslash. split.
  - unfold is_boolean. rewrite !orb_true_iff, !contains_spec. split.
    + intros [[(p & r & ->)|(p & r & ->)]|(p & r & ->)]; exists p, r; auto.
    + intros (p & r & [->| [->| ->]]); eauto.
  - unfold process_query. rewrite Hslash. done.
Qed.

End Classification.

(** ** Sorting *)

Lemma sorted_perm l : sorted l ≡ₚ l.
Proof. apply merge_sort_Permutation. Qed.

Lemma elem_of_sorted d l : d ∈ sorted l ↔ d ∈ l.
Proof. by rewrite sorted_perm. Qed.

Lemma sorted_ascending l : Sorted Z.le (sorted l).
Proof. apply (Sorted_merge_sort Z.le). Qed.

Lemma sorted_NoDup l : NoDup l → NoDup (sorted l).
Proof. by rewrite sorted_perm. Qed.

Lemma elem_of_sorted_elements d (X : gset Z) : d ∈ sorted (elements X) ↔ d ∈ X.
Proof. by rewrite elem_of_sorted, elem_of_elements. Qed.

Lemma elem_of_get_set d inv k : d ∈ get_set inv k ↔ d ∈ get inv k.
Proof. unfold get_set. by rewrite elem_of_list_to_set. Qed.

(** ** The boolean evaluator without brackets *)

Lemma lower_empty s : Str.lower s = EmptyString ↔ s = EmptyString.
Proof. by destruct s. Qed.

Section Boolean.

Variable stem : string → string.
Variable hash : string → Z.
Variable self : indexes.

Lemma boolean_loop_pairs result pairs :
  boolean_loop stem self result (flatten_pairs pairs)
  = foldl (fun result '(operator, term) =>
             apply_operator operator result (term_docs stem self (Str.lower term)))
          result (until_empty_term pairs).
Proof.
  revert result. induction pairs as [|[operator term] pairs IH]; intros result; [done|].
  change (flatten_pairs ((operator, term) :: pairs))
    with (operator :: term :: flatten_pairs pairs).
  cbn [boolean_loop until_empty_term].
  destruct (decide (term = EmptyString)) as [->|Hterm].
  - done.
  - rewrite (bool_decide_eq_false_2 (Str.lower term = EmptyString)) by by rewrite lower_empty.
    rewrite (bool_decide_eq_false_2 (term = EmptyString)) by done.
    cbn [foldl]. apply IH.
Qed.

Lemma flat_boolean_query_pairs query term0 pairs :
  Re.split query = term0 :: flatten_pairs pairs →
  Sorted Z.le (flat_boolean_query stem self query)
  ∧ (∀ d, d ∈ flat_boolean_query stem self query
          ↔ d ∈ left_to_right stem self term0 (until_empty_term pairs))
  ∧ (pairs ≠ [] → NoDup (flat_boolean_query stem self query)).
Proof.
  intros Hsplit. unfold flat_boolean_query. rewrite Hsplit.
  destruct pairs as [|[operator term] pairs].
  - cbn. split_and!; [apply sorted_ascending| |done].
    intros d. unfold term_docs. by rewrite elem_of_sorted, elem_of_get_set.
  - change (flatten_pairs ((operator, term) :: pairs))
      with (operator :: term :: flatten_pairs pairs).
    change (operator :: term :: flatten_pairs pairs)
      with (flatten_pairs ((operator, term) :: pairs)).
    assert (∀ X : gset Z,
      match flatten_pairs ((operator, term) :: pairs) with
      | [] => sorted (get (inverted_index self) (stem (Str.lower term0)))
      | _ :: _ => sorted (elements X)
      end = sorted (elements X)) as -> by done.
    rewrite boolean_loop_pairs. split_and!.
    + apply sorted_ascending.
    + intros d. by rewrite elem_of_sorted_elements.
    + intros _. apply sorted_NoDup, NoDup_elements.
Qed.

(** C1, as amended: a query without a slash and without an opening bracket
    that [process_query] classifies as boolean is evaluated from left to
    right with no precedence. With [re.split] giving
    [term0; op1; term1; ...; opn; termn], the running result starts as the
    posting set of the lower-cased, stemmed [term0]; each pair updates it,
    AND by intersection, OR by union, NOT by difference, up to the first
    pair whose term is empty, where the evaluation stops. The documents of
    the final set are returned in ascending order, each once when there is
    an operator. *)
Theorem boolean_left_to_right (fuel : nat) (query term0 : string)
    (pairs : list (string * string)) :
  Str.contains "/" query = false →
  Str.contains "(" query = false →
  is_boolean query = true →
  Re.split query = term0 :: flatten_pairs pairs →
  ∃ ids,
    process_query stem hash self (S fuel) query = Run (Ok ids) [] self
    ∧ Sorted Z.le ids
    ∧ (∀ d, d ∈ ids ↔ d ∈ left_to_right stem self term0 (until_empty_term pairs))
    ∧ (pairs ≠ [] → NoDup ids).
Proof.
  intros Hslash Hbracket Hbool Hsplit.
  exists (flat_boolean_query stem self query). split.
  - unfold process_query. rewrite Hslash, Hbool. cbn [_process_boolean_query].
    by rewrite Hbracket.
  - by apply flat_boolean_query_pairs.
Qed.

End Boolean.

(** ** Examples for the classification and the boolean evaluator *)

Lemma boolean_left_to_right_witness :
  Str.contains "/" "cat AND dog OR bird" = false
  ∧ Str.contains "(" "cat AND dog OR bird" = false
  ∧ is_boolean "cat AND dog OR bird" = true
  ∧ Re.split "cat AND dog OR bird" = "cat" :: flatten_pairs [("AND", "dog"); ("OR", "bird")]
  ∧ ∃ ids,
      process_query Example.plain_stem Example.constant_hash Example.engine 1
        "cat AND dog OR bird" = Run (Ok ids) [] Example.engine
      ∧ Sorted Z.le ids
      ∧ (∀ d, d ∈ ids ↔
           d ∈ left_to_right Example.plain_stem Example.engine "cat"
                 (until_empty_term [("AND", "dog"); ("OR", "bird")]))
      ∧ ([("AND", "dog"); ("OR", "bird")] ≠ [] → NoDup ids).
Proof.
  split_and!; [reflexivity..|].
  apply (boolean_left_to_right Example.plain_stem Example.constant_hash Example.engine 0
           "cat AND dog OR bird" "cat" [("AND", "dog"); ("OR", "bird")]);
    reflexivity.
Defined.

(** C1, as stated, fails on a query that ends in an operator and on a query
    with brackets. In the example corpus the posting list of [cat] is
    [0; 2] and that of [dog] is [0]. For ["cat AND "] the loop stops at the
    empty term and the postings of [cat] are returned, while the evaluation
    of every pair intersects them with the empty postings of the empty
    term. For ["(cat) AND dog"] the bracket evaluator answers, while the
    evaluation of the pairs starts from the empty postings of ["(cat)"]. *)
Lemma boolean_left_to_right_counterexample :
  (Str.contains "/" "cat AND " = false
   ∧ is_boolean "cat AND " = true
   ∧ Re.split "cat AND " = "cat" :: flatten_pairs [("AND", "")]
   ∧ value (process_query Example.plain_stem Example.constant_hash Example.engine 10 "cat AND ")
     = Ok [0; 2]
   ∧ sorted (elements (left_to_right Example.plain_stem Example.engine "cat" [("AND", "")]))
     = [])
  ∧ (Str.contains "/" "(cat) AND dog" = false
     ∧ is_boolean "(cat) AND dog" = true
     ∧ Re.split "(cat) AND dog" = "(cat)" :: flatten_pairs [("AND", "dog")]
     ∧ value (process_query Example.plain_stem Example.constant_hash Example.engine 10
                "(cat) AND dog")
       = Ok [0]
     ∧ sorted (elements (left_to_right Example.plain_stem Example.engine "(cat)"
                           [("AND", "dog")]))
       = []).
Proof. vm_compute. split_and!; reflexivity. Qed.

Lemma classification_by_substring_witness :
  Str.contains "/" "KNOT theory" = false
  ∧ ((is_boolean "KNOT theory" = true ↔
        ∃ p r, "KNOT theory" = p +:+ " AND " +:+ r ∨ "KNOT theory" = p +:+ " OR " +:+ r
               ∨ "KNOT theory" = p +:+ "NOT " +:+ r)
     ∧ process_query Example.plain_stem Example.constant_hash Example.engine 1 "KNOT theory" =
         if is_boolean "KNOT theory"
         then Run (match _process_boolean_query Example.plain_stem Example.constant_hash
                            Example.engine 1 "KNOT theory" with
                   | Some ids => Ok ids
                   | None => Raise RecursionError
                   end) [] Example.engine
         else Run (Ok (sorted (get (inverted_index Example.engine)
                                 (Example.plain_stem (Str.lower (Str.strip "KNOT theory"))))))
                  [] Example.engine).
Proof.
  split; [reflexivity|].
  apply (classification_by_substring Example.plain_stem Example.constant_hash
           Example.engine 1 "KNOT theory").
  reflexivity.
Defined.

(** C7, as stated, fails in both directions. ["KNOT theory"] holds no
    operator as a word, yet it contains ["NOT "] and goes to the boolean
    evaluator. In ["cat"], tab, ["AND"], tab, ["dog"] the operator is a word
    between white space, yet the query is looked up as one term and nothing
    is found, while the boolean evaluator finds document 0. *)
Lemma classification_counterexample :
  (Str.contains "/" "KNOT theory" = false
   ∧ has_operator_word "KNOT theory" = false
   ∧ is_boolean "KNOT theory" = true)
  ∧ (Str.contains "/" ("cat" +:+ Example.tab +:+ "AND" +:+ Example.tab +:+ "dog") = false
     ∧ has_operator_word ("cat" +:+ Example.tab +:+ "AND" +:+ Example.tab +:+ "dog") = true
     ∧ is_boolean ("cat" +:+ Example.tab +:+ "AND" +:+ Example.tab +:+ "dog") = false
     ∧ value (process_query Example.plain_stem Example.constant_hash Example.engine 10
                ("cat" +:+ Example.tab +:+ "AND" +:+ Example.tab +:+ "dog"))
       = Ok []
     ∧ _process_boolean_query Example.plain_stem Example.constant_hash Example.engine 10
         ("cat" +:+ Example.tab +:+ "AND" +:+ Example.tab +:+ "dog")
       = Some [0]).
Proof. vm_compute. split_and!; reflexivity. Qed.

(** ** Character classes *)

Ltac by_char c := destruct c as [[] [] [] [] [] [] [] []]; try done.

Lemma digit_not_space c : Char.is_digit c = true → Char.is_space c = false.
Proof. by_char c. Qed.

Lemma lower_is_space c : Char.is_space (Char.lower c) = Char.is_space c.
Proof. by_char c. Qed.

Lemma digit_not_sign c :
  Char.is_digit c = true → c ≠ "-"%char ∧ c ≠ "+"%char ∧ c ≠ "/"%char ∧ (Char.code c =? 95)%N = false.
Proof. by_char c. Qed.

Lemma newline_is_space c : Char.eqb c "010"%char = true → Char.is_space c = true.
Proof. by_char c. Qed.

Lemma digit_char c d : Char.is_digit c = true → is_Some (uint_of_char c (Some d)).
Proof. by_char c. Qed.

Lemma all_chars_app f s t : all_chars f (s +:+ t) = all_chars f s && all_chars f t.
Proof.
  induction s as [|c s IH]; [done|]. rewrite app_cons. cbn [all_chars].
  by rewrite IH, andb_assoc.
Qed.

Lemma all_chars_impl (f g : ascii → bool) s :
  (∀ c, f c = true → g c = true) → all_chars f s = true → all_chars g s = true.
Proof.
  intros Hfg. induction s as [|c s IH]; [done|]. cbn [all_chars].
  rewrite !andb_true_iff. intros [??]. auto.
Qed.

Lemma digits_no_space s : all_chars Char.is_digit s = true → no_space s = true.
Proof.
  apply all_chars_impl. intros c Hc. by rewrite (digit_not_space c Hc).
Qed.

(** ** [str] and [int] *)

Lemma lstrip_no_space s : no_space s = true → Str.lstrip s = s.
Proof.
  destruct s as [|c s]; [done|]. unfold no_space. cbn [all_chars Str.lstrip].
  rewrite andb_true_iff, negb_true_iff. by intros [-> _].
Qed.

Lemma rstrip_no_space s : no_space s = true → Str.rstrip s = s.
Proof.
  unfold no_space. induction s as [|c s IH]; [done|]. cbn [all_chars Str.rstrip].
  rewrite andb_true_iff, negb_true_iff. intros [Hc Hs]. rewrite (IH Hs), Hc.
  by destruct s.
Qed.

Lemma strip_no_space s : no_space s = true → Str.strip s = s.
Proof.
  intros Hs. unfold Str.strip. rewrite (lstrip_no_space s Hs). by apply rstrip_no_space.
Qed.

Lemma digits_go_all prev s :
  all_chars Char.is_digit s = true → (s = EmptyString → prev = true) →
  Int.digits_go prev s = Some s.
Proof.
  revert prev. induction s as [|c s IH]; intros prev Hs Hprev.
  - by rewrite Hprev.
  - cbn [all_chars] in Hs. apply andb_true_iff in Hs as [Hc Hs].
    cbn [Int.digits_go]. rewrite Hc, (IH true); done.
Qed.

Lemma digits_all s :
  all_chars Char.is_digit s = true → s ≠ EmptyString → Int.digits s = Some s.
Proof.
  intros Hs Hne. destruct s as [|c s]; [done|]. unfold Int.digits.
  pose proof Hs as Hs'. cbn [all_chars] in Hs'. apply andb_true_iff in Hs' as [-> _].
  by apply digits_go_all.
Qed.

Lemma uint_of_digits s :
  all_chars Char.is_digit s = true → is_Some (NilEmpty.uint_of_string s).
Proof.
  induction s as [|c s IH]; [by eexists|]. cbn [all_chars].
  rewrite andb_true_iff. intros [Hc Hs]. destruct (IH Hs) as [d Hd].
  cbn [NilEmpty.uint_of_string]. rewrite Hd. by apply digit_char.
Qed.

(** [int] accepts every text made of digits, with the value they denote. *)
Lemma of_str_digits s :
  all_chars Char.is_digit s = true → s ≠ EmptyString →
  ∃ d, NilEmpty.uint_of_string s = Some d ∧ Int.of_str s = Some (Z.of_uint d).
Proof.
  intros Hs Hne. destruct (uint_of_digits s Hs) as [d Hd]. exists d. split; [done|].
  unfold Int.of_str. rewrite (strip_no_space s) by by apply digits_no_space.
  destruct s as [|c s]; [done|].
  pose proof Hs as Hs'. cbn [all_chars] in Hs'. apply andb_true_iff in Hs' as [Hc _].
  destruct (digit_not_sign c Hc) as (Hminus & Hplus & _).
  assert (match String c s with
          | String "-"%char r => (true, r)
          | String "+"%char r => (false, r)
          | _ => (false, String c s)
          end = (false, String c s)) as ->.
  { by_char c. }
  by rewrite (digits_all _ Hs), Hd.
Qed.

Lemma string_of_uint_digits d : all_chars Char.is_digit (NilEmpty.string_of_uint d) = true.
Proof. induction d; done. Qed.

Lemma string_of_uint_nonempty d : d ≠ Decimal.Nil → NilEmpty.string_of_uint d ≠ EmptyString.
Proof. by destruct d. Qed.

Lemma string_of_uint_nonnil d :
  d ≠ Decimal.Nil → NilZero.string_of_uint d = NilEmpty.string_of_uint d.
Proof. by destruct d. Qed.

Lemma str_nonneg_digits k :
  0 ≤ k → all_chars Char.is_digit (Int.str k) = true ∧ Int.str k ≠ EmptyString.
Proof.
  intros Hk. unfold Int.str. destruct k as [|p|p]; [done| |lia].
  cbn [Z.to_int NilZero.string_of_int]. pose proof (DecimalPos.Unsigned.to_uint_nonnil p) as Hp.
  rewrite (string_of_uint_nonnil _ Hp).
  split; [apply string_of_uint_digits|by apply string_of_uint_nonempty].
Qed.

(** [int(str(z))] is [z]. *)
Lemma of_str_str z : Int.of_str (Int.str z) = Some z.
Proof.
  rewrite <- (DecimalZ.of_to z) at 2. unfold Int.str.
  destruct z as [|p|p]; [done| |]; cbn [Z.to_int NilZero.string_of_int Z.of_int];
    pose proof (DecimalPos.Unsigned.to_uint_nonnil p) as Hp;
    rewrite (string_of_uint_nonnil _ Hp);
    set (s := NilEmpty.string_of_uint (Pos.to_uint p));
    assert (all_chars Char.is_digit s = true) as Hd by apply string_of_uint_digits;
    assert (s ≠ EmptyString) as Hne by by apply string_of_uint_nonempty.
  - destruct (of_str_digits _ Hd Hne) as (d & Hu & ->).
    unfold s in Hu. rewrite NilEmpty.usu in Hu. by simplify_eq.
  - unfold Int.of_str. rewrite (strip_no_space (String "-" s)).
    2:{ apply andb_true_iff. split; [done|by apply digits_no_space]. }
    rewrite (digits_all s Hd Hne). unfold s. by rewrite NilEmpty.usu.
Qed.

(** ** [str.split] and [str.lower] *)

Lemma rev_app_rev_app w a b :
  String.rev_app (String.rev_app w a) b = String.rev_app a (w +:+ b).
Proof.
  revert a b. induction w as [|c w IH]; intros a b; [done|].
  cbn [String.rev_app]. by rewrite IH.
Qed.

Lemma rev_rev_app w : String.rev (String.rev_app w EmptyString) = w.
Proof. unfold String.rev. rewrite rev_app_rev_app. cbn. apply app_nil_r_s. Qed.

Lemma lower_app s t : Str.lower (s +:+ t) = Str.lower s +:+ Str.lower t.
Proof. induction s as [|c s IH]; [done|]. rewrite app_cons. cbn. by rewrite IH. Qed.


Lemma lower_no_space s : no_space (Str.lower s) = no_space s.
Proof.
  unfold no_space. induction s as [|c s IH]; [done|]. cbn. by rewrite lower_is_space, IH.
Qed.



Lemma split_go_word acc w rest :
  no_space w = true →
  Str.split_go (Some acc) (w +:+ rest) = Str.split_go (Some (String.rev_app w acc)) rest.
Proof.
  unfold no_space. revert acc. induction w as [|c w IH]; intros acc Hw; [done|].
  cbn [all_chars] in Hw. apply andb_true_iff in Hw as [Hc Hw].
  apply negb_true_iff in Hc. rewrite app_cons. cbn [Str.split_go String.rev_app].
  rewrite Hc. cbn. by apply IH.
Qed.

Lemma split_go_first_word w rest :
  is_term w = true →
  Str.split_go None (w +:+ rest) = Str.split_go (Some (String.rev_app w EmptyString)) rest.
Proof.
  unfold is_term, no_space. destruct w as [|c w]; [done|].
  intros [_ Hw]%andb_true_iff. cbn [all_chars] in Hw.
  apply andb_true_iff in Hw as [Hc Hw]. apply negb_true_iff in Hc.
  rewrite app_cons. cbn [Str.split_go String.rev_app]. rewrite Hc. cbn.
  by apply split_go_word.
Qed.

Lemma split_two_terms t1 t2 :
  is_term t1 = true → is_term t2 = true →
  Str.split (t1 +:+ " " +:+ t2) = [t1; t2].
Proof.
  intros H1 H2. unfold Str.split. rewrite (split_go_first_word t1 _ H1).
  change (" " +:+ t2) with (String " " t2).
  cbn [Str.split_go]. change (Char.is_space " ") with true. cbn match.
  pose proof (split_go_first_word t2 EmptyString H2) as Ht2.
  rewrite app_nil_r_s in Ht2. rewrite Ht2. cbn. by rewrite !rev_rev_app.
Qed.

Lemma is_term_lower t : is_term (Str.lower t) = is_term t.
Proof.
  unfold is_term. rewrite lower_no_space. f_equal. f_equal.
  apply bool_decide_ext, lower_empty.
Qed.

(** ** The pattern of the proximity query *)

Lemma skip_space_word s :
  match s with String c _ => Char.is_space c = false | EmptyString => True end →
  Re.skip_space s = s.
Proof. destruct s as [|c s]; [done|]. cbn. by intros ->. Qed.

Lemma span_digits_all ds :
  all_chars Char.is_digit ds = true → Re.span_digits ds = (ds, EmptyString).
Proof.
  induction ds as [|c ds IH]; [done|]. cbn [all_chars]. rewrite andb_true_iff.
  intros [Hc Hds]. cbn. by rewrite Hc, (IH Hds).
Qed.

Lemma tail_slash_digits ds :
  all_chars Char.is_digit ds = true → ds ≠ EmptyString →
  Re.tail (" /" +:+ ds) = Some ds.
Proof.
  intros Hd Hne. change (" /" +:+ ds) with (String " " (String "/" ds)).
  cbn [Re.tail]. change (Char.is_space " ") with true. cbn match.
  change (Re.skip_space (String "/" ds)) with (String "/" ds). cbn match.
  rewrite skip_space_word.
  2:{ destruct ds as [|c ds]; [done|]. cbn [all_chars] in Hd.
      apply andb_true_iff in Hd as [Hc _]. by apply digit_not_space. }
  rewrite (span_digits_all ds Hd). by destruct ds.
Qed.

(** What [span_digits] leaves is at least the text from the first
    character that is not a digit. *)
Lemma span_digits_rest u c v :
  Char.is_digit c = false →
  (Re.span_digits (u +:+ String c v)).2 = (Re.span_digits u).2 +:+ String c v.
Proof.
  intros Hc. induction u as [|a u IH].
  - change (EmptyString +:+ String c v) with (String c v).
    cbn [Re.span_digits]. by rewrite Hc.
  - rewrite app_cons. cbn [Re.span_digits]. destruct (Char.is_digit a); [|done].
    destruct (Re.span_digits (u +:+ String c v)) as [d1 r1].
    destruct (Re.span_digits u) as [d2 r2]. by simplify_eq/=.
Qed.

(** After a space, a term followed by the slash part is not the tail of the
    pattern. *)
Lemma tail_before_term t ds :
  is_term t = true →
  Re.tail (" " +:+ t +:+ " /" +:+ ds) = None.
Proof.
  intros Ht. change (" " +:+ t +:+ " /" +:+ ds) with (String " " (t +:+ " /" +:+ ds)).
  cbn [Re.tail]. change (Char.is_space " ") with true. cbn match.
  unfold is_term, no_space in Ht. destruct t as [|c t]; [done|].
  apply andb_true_iff in Ht as [_ Ht]. cbn [all_chars] in Ht.
  apply andb_true_iff in Ht as [Hc Ht]. apply negb_true_iff in Hc. rewrite app_cons. cbn [Re.skip_space]. rewrite Hc.
  destruct (decide (c = "/"%char)) as [->|Hne]; [|by by_char c].
  destruct t as [|c' t].
  - change (EmptyString +:+ " /" +:+ ds) with (String " " (String "/" ds)).
    cbn [Re.skip_space]. change (Char.is_space " ") with true. cbn match.
    change (Re.skip_space (String "/" ds)) with (String "/" ds).
    cbn [Re.span_digits]. done.
  - cbn [all_chars] in Ht. apply andb_true_iff in Ht as [Hc' Ht].
    apply negb_true_iff in Hc'. rewrite skip_space_word by by rewrite app_cons.
    pose proof (span_digits_rest (String c' t) " "%char (String "/" ds) eq_refl) as Hrest.
    change (String c' t +:+ " /" +:+ ds) with (String c' t +:+ String " " (String "/" ds)).
    destruct (Re.span_digits (String c' t +:+ String " " (String "/" ds))) as [d1 r1].
    cbn [snd] in Hrest. destruct d1; [done|].
    assert (2 ≤ String.length r1)%nat as Hlen.
    { rewrite Hrest, app_length_s. cbn. lia. }
    rewrite !bool_decide_eq_false_2; [done| |]; intros ->; cbn in Hlen; lia.
Qed.

Lemma match_proximity_word w rest :
  no_space w = true →
  Re.match_proximity (w +:+ rest)
  = (fun '(a, ds) => (w +:+ a, ds)) <$> Re.match_proximity rest.
Proof.
  unfold no_space. induction w as [|c w IH]; intros Hw.
  - change (EmptyString +:+ rest) with rest.
    by destruct (Re.match_proximity rest) as [[]|].
  - cbn [all_chars] in Hw. apply andb_true_iff in Hw as [Hc Hw].
    apply negb_true_iff in Hc. rewrite app_cons. cbn [Re.match_proximity Re.tail].
    rewrite Hc. destruct (Char.eqb c "010") eqn:Hnl.
    { by rewrite (newline_is_space c Hnl) in Hc. }
    rewrite (IH Hw). by destruct (Re.match_proximity rest) as [[]|].
Qed.

Lemma is_term_no_space t : is_term t = true → no_space t = true.
Proof. unfold is_term. by intros [_ ?]%andb_true_iff. Qed.

(** The pattern splits [term1 term2 /k] into the two terms and the digits. *)
Lemma match_proximity_query t1 t2 k :
  is_term t1 = true → is_term t2 = true → 0 ≤ k →
  Re.match_proximity (proximity_query t1 t2 k) = Some (t1 +:+ " " +:+ t2, Int.str k).
Proof.
  intros H1 H2 Hk. destruct (str_nonneg_digits k Hk) as [Hd Hne].
  unfold proximity_query. rewrite (match_proximity_word t1) by by apply is_term_no_space.
  assert (Re.match_proximity (" " +:+ t2 +:+ " /" +:+ Int.str k)
          = Some (" " +:+ t2, Int.str k)) as ->; [|done].
  change (" " +:+ t2 +:+ " /" +:+ Int.str k) with (String " " (t2 +:+ " /" +:+ Int.str k)).
  cbn [Re.match_proximity].
  change (String " " (t2 +:+ " /" +:+ Int.str k)) with (" " +:+ t2 +:+ " /" +:+ Int.str k).
  rewrite (tail_before_term t2 _ H2). change (Char.eqb " " "010") with false. cbn match.
  rewrite (match_proximity_word t2) by by apply is_term_no_space.
  assert (Re.match_proximity (" /" +:+ Int.str k) = Some (EmptyString, Int.str k)) as ->.
  { change (" /" +:+ Int.str k) with (String " " (String "/" (Int.str k))) at 1.
    cbn [Re.match_proximity].
    change (String " " (String "/" (Int.str k))) with (" /" +:+ Int.str k).
    by rewrite (tail_slash_digits _ Hd Hne). }
  cbn. by rewrite app_nil_r_s.
Qed.

(** ** The proximity evaluator *)

Lemma getitem2_positions pos term doc_id :
  (getitem2 pos term doc_id).1 = positions_of pos term doc_id.
Proof. unfold getitem2, positions_of. cbn. by destruct (pos !! term). Qed.

(** Reading through the default dictionaries changes no position list. *)
Lemma getitem2_preserves pos term doc_id term' doc_id' :
  positions_of (getitem2 pos term doc_id).2 term' doc_id' = positions_of pos term' doc_id'.
Proof.
  unfold getitem2, positions_of. cbn.
  destruct (decide (term' = term)) as [->|Hterm].
  - rewrite lookup_insert_eq. cbn.
    destruct (decide (doc_id' = doc_id)) as [->|Hdoc].
    + rewrite lookup_insert_eq. by destruct (pos !! term).
    + rewrite lookup_insert_ne by done. by destruct (pos !! term).
  - by rewrite lookup_insert_ne.
Qed.


Lemma within_spec k ps1 ps2 :
  within k ps1 ps2 = true ↔ ∃ p1 p2, p1 ∈ ps1 ∧ p2 ∈ ps2 ∧ Z.abs (p1 - p2) ≤ k.
Proof.
  unfold within. rewrite existsb_exists. split.
  - intros (p1 & H1 & H). apply existsb_exists in H as (p2 & H2 & H).
    exists p1, p2. rewrite <- !list_elem_of_In in *. split_and!; [done..|lia].
  - intros (p1 & p2 & H1 & H2 & H). exists p1. rewrite <- list_elem_of_In. split; [done|].
    apply existsb_exists. exists p2. rewrite <- list_elem_of_In. split; [done|lia].
Qed.

Lemma within_sym k ps1 ps2 : within k ps1 ps2 = within k ps2 ps1.
Proof.
  apply eq_true_iff_eq. rewrite !within_spec. split.
  - intros (p1 & p2 & ? & ? & ?). exists p2, p1. split_and!; [done..|lia].
  - intros (p1 & p2 & ? & ? & ?). exists p2, p1. split_and!; [done..|lia].
Qed.

Section Proximity.

Variable stem : string → string.
Variable hash : string → Z.
Variable self : indexes.


Lemma proximity_fold stem1 stem2 k docs acc pos :
  (∀ t d, positions_of pos t d = positions_of (positional_index self) t d) →
  ∃ pos',
    foldl (proximity_step stem1 stem2 k) (acc, pos) docs
    = (acc ++ List.filter (matches self stem1 stem2 k) docs, pos')
    ∧ (∀ t d, positions_of pos' t d = positions_of (positional_index self) t d).
Proof.
  revert acc pos. induction docs as [|doc docs IH]; intros acc pos Hpos.
  - exists pos. by rewrite app_nil_r.
  - cbn [foldl List.filter]. unfold proximity_step at 2.
    destruct (getitem2 pos stem1 doc) as [positions1 pos1] eqn:E1.
    destruct (getitem2 pos1 stem2 doc) as [positions2 pos2] eqn:E2.
    assert (positions1 = positions_of (positional_index self) stem1 doc) as ->.
    { rewrite <- Hpos, <- getitem2_positions. by rewrite E1. }
    assert (∀ t d, positions_of pos1 t d = positions_of (positional_index self) t d) as Hpos1.
    { intros t d. rewrite <- Hpos. replace pos1 with (getitem2 pos stem1 doc).2 by by rewrite E1.
      apply getitem2_preserves. }
    assert (positions2 = positions_of (positional_index self) stem2 doc) as ->.
    { rewrite <- Hpos1, <- getitem2_positions. by rewrite E2. }
    assert (∀ t d, positions_of pos2 t d = positions_of (positional_index self) t d) as Hpos2.
    { intros t d. rewrite <- Hpos1. replace pos2 with (getitem2 pos1 stem2 doc).2 by by rewrite E2.
      apply getitem2_preserves. }
    fold (matches self stem1 stem2 k doc).
    destruct (IH (if matches self stem1 stem2 k doc then acc ++ [doc] else acc) pos2 Hpos2)
      as (pos' & -> & Hpos').
    exists pos'. split; [|done]. f_equal.
    destruct (matches self stem1 stem2 k doc); [by rewrite <- app_assoc|done].
Qed.


(** The answer to a query that the pattern accepts with two terms. *)
Lemma proximity_parsed query terms_part digits k term1 term2 :
  Re.match_proximity query = Some (terms_part, digits) →
  Int.of_str digits = Some k →
  Str.split (Str.lower terms_part) = [term1; term2] →
  ∃ pos',
    _process_proximity_query stem self query
    = Run (Ok (sorted (List.filter (matches self (stem term1) (stem term2) k)
                         (elements (get_set (inverted_index self) (stem term1)
                                    ∩ get_set (inverted_index self) (stem term2))))))
          [] (Indexes (doc_ids self) (inverted_index self) pos')
    ∧ pos' = (foldl (proximity_step (stem term1) (stem term2) k) ([], positional_index self)
                (elements (get_set (inverted_index self) (stem term1)
                           ∩ get_set (inverted_index self) (stem term2)))).2.
Proof.
  intros Hmatch Hk Hsplit. unfold _process_proximity_query.
  rewrite Hmatch, Hk, Hsplit.
  destruct (proximity_fold (stem term1) (stem term2) k
              (elements (get_set (inverted_index self) (stem term1)
                         ∩ get_set (inverted_index self) (stem term2)))
              [] (positional_index self)) as (pos' & Hfold & _); [done|].
  rewrite Hfold. by exists pos'.
Qed.

End Proximity.

Section ProximityQueries.

Variable stem : string → string.
Variable hash : string → Z.
Variable self : indexes.

Lemma proximity_query_slash t1 t2 k : Str.contains "/" (proximity_query t1 t2 k) = true.
Proof.
  apply contains_spec. exists (t1 +:+ " " +:+ t2 +:+ " "), (Int.str k).
  unfold proximity_query. by rewrite !app_assoc_s.
Qed.

Lemma split_lower_two_terms t1 t2 :
  is_term t1 = true → is_term t2 = true →
  Str.split (Str.lower (t1 +:+ " " +:+ t2)) = [Str.lower t1; Str.lower t2].
Proof.
  intros H1 H2. rewrite !lower_app. change (Str.lower " ") with " ".
  apply split_two_terms; by rewrite is_term_lower.
Qed.

(** The value [process_query] returns for [term1 term2 /k]. *)
Lemma proximity_query_value fuel t1 t2 k :
  is_term t1 = true → is_term t2 = true → 0 ≤ k →
  value (process_query stem hash self fuel (proximity_query t1 t2 k))
  = Ok (sorted (List.filter
                  (matches self (stem (Str.lower t1)) (stem (Str.lower t2)) k)
                  (elements (get_set (inverted_index self) (stem (Str.lower t1))
                             ∩ get_set (inverted_index self) (stem (Str.lower t2))))))
  ∧ printed (process_query stem hash self fuel (proximity_query t1 t2 k)) = [].
Proof.
  intros H1 H2 Hk. unfold process_query. rewrite proximity_query_slash.
  destruct (proximity_parsed stem self (proximity_query t1 t2 k) _ _ k _ _
              (match_proximity_query t1 t2 k H1 H2 Hk) (of_str_str k)
              (split_lower_two_terms t1 t2 H1 H2)) as (pos' & -> & _).
  done.
Qed.


(** C8: the queries [term1 term2 /k] and [term2 term1 /k] return the same
    list. *)
Theorem proximity_symmetric (fuel : nat) (term1 term2 : string) (k : Z) :
  is_term term1 = true → is_term term2 = true → 0 ≤ k →
  value (process_query stem hash self fuel (proximity_query term1 term2 k))
  = value (process_query stem hash self fuel (proximity_query term2 term1 k)).
Proof.
  intros H1 H2 Hk.
  destruct (proximity_query_value fuel term1 term2 k H1 H2 Hk) as [-> _].
  destruct (proximity_query_value fuel term2 term1 k H2 H1 Hk) as [-> _].
  f_equal. f_equal.
  rewrite (comm_L (∩) (get_set (inverted_index self) (stem (Str.lower term2)))).
  apply filter_ext. intros d. apply within_sym.
Qed.


End ProximityQueries.

(** ** Queries outside the grammar of the proximity query *)

Lemma skip_space_split s :
  ∃ w, s = w +:+ Re.skip_space s ∧ all_chars Char.is_space w = true.
Proof.
  induction s as [|c s (w & Hw & Hspace)]; [by exists EmptyString|].
  cbn [Re.skip_space]. destruct (Char.is_space c) eqn:Hc.
  - exists (String c w). rewrite app_cons, <- Hw. cbn [all_chars]. by rewrite Hc, Hspace.
  - by exists EmptyString.
Qed.

Lemma span_digits_split s :
  s = (Re.span_digits s).1 +:+ (Re.span_digits s).2
  ∧ all_chars Char.is_digit (Re.span_digits s).1 = true.
Proof.
  induction s as [|c s [Hs Hd]]; [done|]. cbn [Re.span_digits].
  destruct (Char.is_digit c) eqn:Hc; [|done].
  destruct (Re.span_digits s) as [ds rest]. cbn in *.
  rewrite app_cons, <- Hs, Hc, Hd. done.
Qed.

Lemma tail_sound s ds :
  Re.tail s = Some ds →
  ∃ w w' nl,
    s = w +:+ "/" +:+ w' +:+ ds +:+ nl
    ∧ w ≠ EmptyString ∧ all_chars Char.is_space w = true
    ∧ all_chars Char.is_space w' = true
    ∧ ds ≠ EmptyString ∧ all_chars Char.is_digit ds = true
    ∧ (nl = EmptyString ∨ nl = String "010"%char EmptyString).
Proof.
  destruct s as [|c r]; [done|]. cbn [Re.tail].
  destruct (Char.is_space c) eqn:Hc; [|done].
  destruct (skip_space_split r) as (w & Hw & Hspace).
  destruct (Re.skip_space r) as [|c1 r1]; [done|].
  destruct (decide (c1 = "/"%char)) as [->|Hne]; [|by by_char c1].
  destruct (skip_space_split r1) as (w' & Hw' & Hspace').
  destruct (span_digits_split (Re.skip_space r1)) as [Hsplit Hdigits].
  destruct (Re.span_digits (Re.skip_space r1)) as [ds' rest]. cbn in Hsplit, Hdigits.
  destruct ds' as [|d ds']; [done|]. intros Hrest.
  assert (Some (String d ds') = Some ds
          ∧ (rest = EmptyString ∨ rest = String "010"%char EmptyString)) as [? Hnl].
  { destruct (bool_decide (rest = EmptyString)) eqn:E1.
    - apply bool_decide_eq_true in E1. auto.
    - destruct (bool_decide (rest = String "010"%char EmptyString)) eqn:E2; [|done].
      apply bool_decide_eq_true in E2. auto. }
  simplify_eq. exists (String c w), w', rest. split_and!; try done.
  - rewrite app_cons. f_equal. f_equal.
    change ("/" +:+ w' +:+ String d ds' +:+ rest)
      with (String "/" (w' +:+ String d ds' +:+ rest)).
    f_equal. by rewrite <- Hsplit.
  - cbn [all_chars]. by rewrite Hc, Hspace.
Qed.

Lemma match_proximity_sound s a ds :
  Re.match_proximity s = Some (a, ds) → ∃ rest, s = a +:+ rest ∧ Re.tail rest = Some ds.
Proof.
  revert a. induction s as [|c s IH]; intros a.
  - cbn. done.
  - cbn [Re.match_proximity]. destruct (Re.tail (String c s)) as [ds'|] eqn:Htail.
    + intros ?; simplify_eq. by exists (String c s).
    + destruct (Char.eqb c "010"); [done|].
      destruct (Re.match_proximity s) as [[a' ds']|]; [|done].
      intros ?; simplify_eq/=. destruct (IH a' eq_refl) as (rest & -> & Hrest).
      by exists rest.
Qed.

Section Malformed.

Variable stem : string → string.
Variable hash : string → Z.
Variable self : indexes.


End Malformed.

(** ** Index construction *)

Lemma elem_of_enumerate {A} (start : Z) (l : list A) p x :
  (p, x) ∈ enumerate start l ↔ start ≤ p ∧ l !! Z.to_nat (p - start) = Some x.
Proof.
  revert start. induction l as [|y l IH]; intros start; cbn [enumerate].
  - rewrite elem_of_nil. naive_solver.
  - rewrite elem_of_cons, IH. split.
    + intros [?|[? Hl]]; simplify_eq.
      * rewrite Z.sub_diag. split; [lia|done].
      * split; [lia|]. replace (Z.to_nat (p - start)) with (S (Z.to_nat (p - (start + 1)))) by lia.
        done.
    + intros [? Hl]. destruct (decide (p = start)) as [->|?].
      * rewrite Z.sub_diag in Hl. left. by simplify_eq/=.
      * right. split; [lia|].
        replace (Z.to_nat (p - start)) with (S (Z.to_nat (p - (start + 1)))) in Hl by lia.
        done.
Qed.

Lemma append_position_positions pos term0 doc0 p term doc_id :
  positions_of (append_position pos term0 doc0 p) term doc_id
  = positions_of pos term doc_id
    ++ (if bool_decide (term = term0 ∧ doc_id = doc0) then [p] else []).
Proof.
  unfold append_position, positions_of.
  destruct (decide (term = term0)) as [->|Hterm].
  - rewrite lookup_insert_eq. cbn. destruct (decide (doc_id = doc0)) as [->|Hdoc].
    + rewrite lookup_insert_eq, bool_decide_eq_true_2 by done. by destruct (pos !! term0).
    + rewrite lookup_insert_ne, bool_decide_eq_false_2 by naive_solver.
      rewrite app_nil_r. by destruct (pos !! term0).
  - rewrite lookup_insert_ne, bool_decide_eq_false_2 by naive_solver. by rewrite app_nil_r.
Qed.

Lemma append_posting_get doc_id term0 inv term :
  get (append_posting doc_id term0 inv) term
  = get inv term ++ (if bool_decide (term = term0) then [doc_id] else []).
Proof.
  unfold append_posting, get. destruct (decide (term = term0)) as [->|Hterm].
  - by rewrite lookup_insert_eq, bool_decide_eq_true_2.
  - by rewrite lookup_insert_ne, bool_decide_eq_false_2, app_nil_r.
Qed.

(** The second inner loop appends the doc_id once to the posting list of
    each term of the set. *)
Lemma set_fold_append_posting doc_id inv (terms : gset string) term :
  get (set_fold (append_posting doc_id) inv terms) term
  = get inv term ++ (if bool_decide (term ∈ terms) then [doc_id] else []).
Proof.
  revert term.
  refine (set_fold_ind_L (fun r (X : gset string) => ∀ term,
            get r term = get inv term ++ (if bool_decide (term ∈ X) then [doc_id] else []))
            (append_posting doc_id) inv _ _ terms).
  - intros term. by rewrite bool_decide_eq_false_2, app_nil_r by set_solver.
  - intros x X r Hx IH term. rewrite append_posting_get, IH.
    destruct (decide (term = x)) as [->|Hne].
    + rewrite (bool_decide_eq_false_2 (x ∈ X)), !bool_decide_eq_true_2 by set_solver.
      by rewrite app_nil_r.
    + rewrite (bool_decide_eq_false_2 (term = x)) by done. rewrite app_nil_r.
      f_equal. rewrite (bool_decide_ext (term ∈ X) (term ∈ {[x]} ∪ X)); [done|set_solver].
Qed.

Section BuildFacts.

Variable stem : string → string.
Variable stop_words : gset string.
Variable docs_folder : string.
Variable read_document : string → read_result.

Local Abbreviation preprocess := (_preprocess_text stem stop_words).
Local Abbreviation entry := (build_entry stem stop_words docs_folder read_document).
Local Abbreviation accepted' := (accepted docs_folder read_document).
Local Abbreviation entry_at' := (entry_at docs_folder read_document).
Local Abbreviation stored := (stored_positions stem stop_words).
Local Abbreviation terms := (terms_of stem stop_words).
Local Abbreviation with_term := (documents_with stem stop_words docs_folder read_document).

(** The pairs of [_preprocess_text]: the stem of each token that is not a
    stop word, with the index of the token among all the tokens. *)
Lemma elem_of_preprocess text s p :
  (s, p) ∈ preprocess text ↔
  ∃ token, 0 ≤ p ∧ Re.findall_words (Str.lower text) !! Z.to_nat p = Some token
           ∧ token ∉ stop_words ∧ stem token = s.
Proof.
  unfold _preprocess_text. rewrite list_elem_of_omap. split.
  - intros ([pos token] & Hin & Hsome). apply elem_of_enumerate in Hin as [Hpos Hlook].
    case_bool_decide; simplify_eq. exists token. rewrite Z.sub_0_r in Hlook. done.
  - intros (token & Hpos & Hlook & Hstop & <-). exists (p, token). split.
    + apply elem_of_enumerate. by rewrite Z.sub_0_r.
    + by rewrite bool_decide_eq_false_2.
Qed.

Lemma foldl_index_token doc0 tokens terms0 pos :
  ∃ pos',
    foldl (index_token doc0) (terms0, pos) tokens = (list_to_set (tokens.*1) ∪ terms0, pos')
    ∧ ∀ term doc_id,
        positions_of pos' term doc_id
        = positions_of pos term doc_id
          ++ (if bool_decide (doc_id = doc0)
              then (filter (fun tp => tp.1 = term) tokens).*2 else []).
Proof.
  revert terms0 pos. induction tokens as [|[term0 p] tokens IH]; intros terms0 pos.
  - exists pos. split; [cbn; f_equal; set_solver|].
    intros term doc_id. cbn. case_bool_decide; by rewrite app_nil_r.
  - cbn [foldl index_token].
    destruct (IH ({[term0]} ∪ terms0) (append_position pos term0 doc0 p))
      as (pos' & -> & Hpos').
    exists pos'. split; [cbn; f_equal; set_solver|].
    intros term doc_id. rewrite Hpos', append_position_positions, <- app_assoc. f_equal.
    rewrite filter_cons. cbn [fst].
    destruct (decide (term0 = term)) as [->|Hne]; destruct (decide (doc_id = doc0)) as [->|Hdoc].
    + by rewrite !bool_decide_eq_true_2.
    + by rewrite !bool_decide_eq_false_2 by naive_solver.
    + by rewrite bool_decide_eq_false_2 by naive_solver.
    + by rewrite !bool_decide_eq_false_2 by naive_solver.
Qed.

(** One directory entry: nothing changes unless the entry is a document
    that is read; then it gets the doc_id of the entry, its positions are
    appended, and the doc_id is appended once per term. *)
Lemma build_entry_step b doc0 name :
  match accepted' name with
  | None => built (entry b (doc0, name)) = built b
  | Some text =>
      doc_ids (built (entry b (doc0, name))) = <[doc0 := name]> (doc_ids (built b))
      ∧ (∀ term doc_id,
           positions_of (positional_index (built (entry b (doc0, name)))) term doc_id
           = positions_of (positional_index (built b)) term doc_id
             ++ (if bool_decide (doc_id = doc0) then stored term text else []))
      ∧ (∀ term,
           get (inverted_index (built (entry b (doc0, name)))) term
           = get (inverted_index (built b)) term
             ++ (if bool_decide (term ∈ terms text) then [doc0] else []))
  end.
Proof.
  unfold accepted, build_entry. destruct (Str.endswith ".txt" name); [|done]. cbn [negb].
  destruct (read_document (path_join docs_folder name)) as [text|message]; [|done].
  destruct (foldl_index_token doc0 (preprocess text) ∅ (positional_index (built b)))
    as (pos' & -> & Hpos').
  cbn. split_and!; [done|done|]. intros term.
  rewrite set_fold_append_posting. f_equal.
  rewrite (bool_decide_ext (term ∈ list_to_set (preprocess text).*1 ∪ (∅ : gset string))
             (term ∈ terms text)); [done|].
  unfold terms_of. set_solver.
Qed.

Lemma entry_at_before start listing doc_id :
  doc_id < start → entry_at' start listing doc_id = None.
Proof.
  revert start. induction listing as [|name rest IH]; intros start Hlt; [done|].
  cbn [entry_at]. rewrite bool_decide_eq_false_2 by lia. apply IH. lia.
Qed.

Lemma entry_at_lookup start listing doc_id name text :
  entry_at' start listing doc_id = Some (name, text) ↔
  start ≤ doc_id ∧ listing !! Z.to_nat (doc_id - start) = Some name
  ∧ accepted' name = Some text.
Proof.
  revert start. induction listing as [|name' rest IH]; intros start; cbn [entry_at].
  - split; [done|]. by intros (_ & ? & _).
  - case_bool_decide as Hd.
    + subst. rewrite Z.sub_diag. cbn. split.
      * destruct (accepted' name') eqn:Hacc; intros ?; simplify_eq/=.
        split_and!; [lia|done|done].
      * intros (_ & ? & Hacc). simplify_eq/=. by rewrite Hacc.
    + rewrite IH. split.
      * intros (? & Hl & ?). split_and!; [lia| |done].
        replace (Z.to_nat (doc_id - start)) with (S (Z.to_nat (doc_id - (start + 1)))) by lia.
        done.
      * intros (? & Hl & ?). split_and!; [lia| |done].
        replace (Z.to_nat (doc_id - start)) with (S (Z.to_nat (doc_id - (start + 1)))) in Hl
          by lia.
        done.
Qed.

Lemma documents_with_cons term start name rest :
  with_term term start (name :: rest)
  = match accepted' name with
    | Some text => if bool_decide (term ∈ terms text) then [start] else []
    | None => []
    end ++ with_term term (start + 1) rest.
Proof.
  unfold documents_with. cbn [enumerate omap list_omap].
  destruct (accepted' name) as [text|]; [|done]. by case_bool_decide.
Qed.

Lemma elem_of_documents_with term start listing doc_id :
  doc_id ∈ with_term term start listing ↔
  ∃ name text, entry_at' start listing doc_id = Some (name, text) ∧ term ∈ terms text.
Proof.
  revert start. induction listing as [|name rest IH]; intros start.
  - unfold documents_with. cbn. rewrite elem_of_nil. naive_solver.
  - rewrite documents_with_cons, elem_of_app, IH. cbn [entry_at]. split.
    + intros [Hhere|(name' & text & Hat & Hterm)].
      * destruct (accepted' name) as [text|] eqn:Hacc; [|by apply elem_of_nil in Hhere].
        case_bool_decide as Hterm; [|by apply elem_of_nil in Hhere].
        apply list_elem_of_singleton in Hhere as ->.
        exists name, text. by rewrite bool_decide_eq_true_2.
      * exists name', text. split; [|done]. rewrite bool_decide_eq_false_2; [done|].
        intros ->. by rewrite entry_at_before in Hat by lia.
    + intros (name' & text & Hat & Hterm). case_bool_decide as Hd.
      * left. subst. destruct (accepted' name) as [text'|]; simplify_eq/=.
        rewrite bool_decide_eq_true_2 by done. set_solver.
      * right. eauto.
Qed.

Lemma documents_with_bound term start listing doc_id :
  doc_id ∈ with_term term start listing → start ≤ doc_id.
Proof.
  intros (name & text & Hat & _)%elem_of_documents_with.
  destruct (decide (start ≤ doc_id)); [done|]. rewrite entry_at_before in Hat by lia. done.
Qed.


(** The pass over a listing enumerated from [start], from any state. *)
Lemma build_pass_from b start listing :
  let r := built (foldl entry b (enumerate start listing)) in
  (∀ doc_id,
     doc_ids r !! doc_id
     = match entry_at' start listing doc_id with
       | Some (name, _) => Some name
       | None => doc_ids (built b) !! doc_id
       end)
  ∧ (∀ term doc_id,
       positions_of (positional_index r) term doc_id
       = positions_of (positional_index (built b)) term doc_id
         ++ match entry_at' start listing doc_id with
            | Some (_, text) => stored term text
            | None => []
            end)
  ∧ (∀ term,
       get (inverted_index r) term
       = get (inverted_index (built b)) term ++ with_term term start listing).
Proof.
  revert b start. induction listing as [|name rest IH]; intros b start.
  - cbn. split_and!; intros; by rewrite ?app_nil_r.
  - cbn [enumerate foldl entry_at].
    destruct (IH (entry b (start, name)) (start + 1)) as (Hids & Hpos & Hinv).
    pose proof (build_entry_step b start name) as Hstep.
    cbn zeta. split_and!.
    + intros doc_id. rewrite Hids. case_bool_decide as Hd.
      * subst. rewrite entry_at_before by lia.
        destruct (accepted' name) as [text|]; cbn -[build_entry].
        -- destruct Hstep as (-> & _). by rewrite lookup_insert_eq.
        -- by rewrite Hstep.
      * destruct (entry_at' (start + 1) rest doc_id) as [[]|]; [done|].
        destruct (accepted' name) as [text|].
        -- destruct Hstep as (-> & _). by rewrite lookup_insert_ne.
        -- by rewrite Hstep.
    + intros term doc_id. rewrite Hpos. case_bool_decide as Hd.
      * subst. rewrite entry_at_before by lia. rewrite app_nil_r.
        destruct (accepted' name) as [text|]; cbn -[build_entry].
        -- destruct Hstep as (_ & -> & _). by rewrite bool_decide_eq_true_2.
        -- by rewrite Hstep, app_nil_r.
      * destruct (accepted' name) as [text|].
        -- destruct Hstep as (_ & -> & _). by rewrite bool_decide_eq_false_2, app_nil_r.
        -- by rewrite Hstep.
    + intros term. rewrite Hinv, documents_with_cons.
      destruct (accepted' name) as [text|].
      * destruct Hstep as (_ & _ & ->). by rewrite <- app_assoc.
      * by rewrite Hstep.
Qed.

End BuildFacts.

Section BuildClaims.

Variable stem : string → string.
Variable stop_words : gset string.
Variable docs_folder : string.
Variable read_document : string → read_result.

Local Abbreviation build := (build_from_scratch stem stop_words docs_folder read_document).

Lemma accepted_spec name text :
  accepted docs_folder read_document name = Some text ↔
  Str.endswith ".txt" name = true ∧ read_document (path_join docs_folder name) = Content text.
Proof.
  unfold accepted. destruct (Str.endswith ".txt" name); [|naive_solver].
  destruct (read_document (path_join docs_folder name)); naive_solver.
Qed.

Lemma build_facts listing :
  (∀ doc_id,
     doc_ids (build listing) !! doc_id
     = match entry_at docs_folder read_document 0 listing doc_id with
       | Some (name, _) => Some name
       | None => None
       end)
  ∧ (∀ term doc_id,
       positions_of (positional_index (build listing)) term doc_id
       = match entry_at docs_folder read_document 0 listing doc_id with
         | Some (_, text) => stored_positions stem stop_words term text
         | None => []
         end)
  ∧ (∀ term,
       get (inverted_index (build listing)) term
       = documents_with stem stop_words docs_folder read_document term 0 listing).
Proof.
  destruct (build_pass_from stem stop_words docs_folder read_document
              (BuildState empty_indexes 0 []) 0 listing) as (Hids & Hpos & Hinv).
  unfold build_from_scratch, build_pass. cbn zeta in Hids, Hpos, Hinv. split_and!.
  - intros doc_id. rewrite (Hids doc_id).
    by destruct (entry_at _ _ _ _ _) as [[]|].
  - intros term doc_id. apply Hpos.
  - intros term. apply Hinv.
Qed.

Lemma elem_of_stored_positions term text p :
  p ∈ stored_positions stem stop_words term text
  ↔ (term, p) ∈ _preprocess_text stem stop_words text.
Proof.
  unfold stored_positions. rewrite list_elem_of_fmap. split.
  - intros ([s q] & -> & [Hs Hin]%list_elem_of_filter). cbn in Hs. by subst.
  - intros Hin. exists (term, p). split; [done|]. by apply list_elem_of_filter.
Qed.

Lemma elem_of_terms_of term text :
  term ∈ terms_of stem stop_words text ↔ stored_positions stem stop_words term text ≠ [].
Proof.
  unfold terms_of. rewrite elem_of_list_to_set, list_elem_of_fmap. split.
  - intros ([s p] & -> & Hin). cbn. intros Hnil.
    assert (p ∈ stored_positions stem stop_words s text) as Hp
      by by apply elem_of_stored_positions.
    rewrite Hnil in Hp. by apply elem_of_nil in Hp.
  - intros Hne. destruct (stored_positions stem stop_words term text) as [|p l] eqn:E; [done|].
    assert (p ∈ stored_positions stem stop_words term text) as Hp by (rewrite E; left).
    apply elem_of_stored_positions in Hp. by exists (term, p).
Qed.

(** C4, as amended: an entry whose name does not end in [.txt] is skipped,
    and so is one that cannot be read; every other entry gets as doc_id its
    index in the whole listing, the skipped entries counted. The doc_ids
    increase along the listing and leave a gap at each skipped entry. *)
Theorem doc_id_is_listing_index (listing : list string) (doc_id : Z) (name : string) :
  doc_ids (build listing) !! doc_id = Some name ↔
  0 ≤ doc_id
  ∧ listing !! Z.to_nat doc_id = Some name
  ∧ Str.endswith ".txt" name = true
  ∧ ∃ text, read_document (path_join docs_folder name) = Content text.
Proof.
  destruct (build_facts listing) as (Hids & _ & _). rewrite Hids. split.
  - destruct (entry_at _ _ _ _ _) as [[name' text]|] eqn:Hat; [|done].
    intros ?; simplify_eq. apply entry_at_lookup in Hat as (? & Hl & Hacc).
    apply accepted_spec in Hacc as [??]. rewrite Z.sub_0_r in Hl. eauto 10.
  - intros (? & Hl & Hend & text & Hread).
    assert (entry_at docs_folder read_document 0 listing doc_id = Some (name, text)) as ->;
      [|done].
    apply entry_at_lookup. rewrite Z.sub_0_r. split_and!; [done..|].
    by apply accepted_spec.
Qed.

(** C2, as amended: each position stored for a stem and a document is the
    index of that occurrence among all the tokens of the document, the stop
    words counted: a stop word is not stored, but it takes up an index. *)
Theorem position_is_token_index (listing : list string) (doc_id : Z) (term : string) (p : Z) :
  p ∈ positions_of (positional_index (build listing)) term doc_id ↔
  ∃ name text token,
    0 ≤ doc_id
    ∧ listing !! Z.to_nat doc_id = Some name
    ∧ Str.endswith ".txt" name = true
    ∧ read_document (path_join docs_folder name) = Content text
    ∧ 0 ≤ p
    ∧ Re.findall_words (Str.lower text) !! Z.to_nat p = Some token
    ∧ token ∉ stop_words
    ∧ stem token = term.
Proof.
  destruct (build_facts listing) as (_ & Hpos & _). rewrite Hpos. split.
  - destruct (entry_at _ _ _ _ _) as [[name text]|] eqn:Hat; [|by intros ?%elem_of_nil].
    intros (token & ? & ? & ? & ?)%elem_of_stored_positions%elem_of_preprocess.
    apply entry_at_lookup in Hat as (? & Hl & [??]%accepted_spec).
    rewrite Z.sub_0_r in Hl. exists name, text, token. done.
  - intros (name & text & token & ? & Hl & Hend & Hread & ? & ? & ? & ?).
    assert (entry_at docs_folder read_document 0 listing doc_id = Some (name, text)) as ->.
    { apply entry_at_lookup. rewrite Z.sub_0_r. split_and!; [done..|]. by apply accepted_spec. }
    apply elem_of_stored_positions, elem_of_preprocess. by exists token.
Qed.

(** After a build, a document is in the posting list of a term exactly when
    it has positions for the term. *)
Lemma build_posting_positions listing term doc_id :
  doc_id ∈ get (inverted_index (build listing)) term
  ↔ positions_of (positional_index (build listing)) term doc_id ≠ [].
Proof.
  destruct (build_facts listing) as (_ & Hpos & Hinv).
  rewrite Hinv, Hpos, elem_of_documents_with. split.
  - intros (name & text & -> & Hterm). by apply elem_of_terms_of.
  - destruct (entry_at _ _ _ _ _) as [[name text]|]; [|done].
    intros Hne. exists name, text. split; [done|]. by apply elem_of_terms_of.
Qed.



End BuildClaims.

(** ** The snapshot *)

Lemma foldl_insert_list_to_map `{Countable K} {V} (l : list (K * V)) (acc : gmap K V) :
  NoDup l.*1 →
  foldl (fun m '(k, v) => <[k := v]> m) acc l = list_to_map l ∪ acc.
Proof.
  revert acc. induction l as [|[k v] l IH]; intros acc Hl.
  - cbn. by rewrite (left_id_L ∅ (∪)).
  - apply NoDup_cons in Hl as [Hk Hl]. cbn [foldl list_to_map foldr]. rewrite (IH _ Hl).
    cbn. rewrite <- insert_union_l. symmetry. apply insert_union_r.
    by apply not_elem_of_list_to_map_1.
Qed.

Lemma foldl_insert_map_to_list `{Countable K} {V} (m : gmap K V) :
  foldl (fun m '(k, v) => <[k := v]> m) ∅ (map_to_list m) = m.
Proof.
  rewrite foldl_insert_list_to_map by apply NoDup_fst_map_to_list.
  by rewrite (right_id_L ∅ (∪)), list_to_map_to_list.
Qed.

Section Store.

Variable docs_folder : string.

Lemma load_document_mapping_saved acc (l : list (Z * string)) :
  load_document_mapping acc
    ((fun '(doc_id, name) => (Int.str doc_id, DocInfo name (path_join docs_folder name))) <$> l)
  = Some (foldl (fun m '(k, v) => <[k := v]> m) acc l).
Proof.
  revert acc. induction l as [|[doc_id name] l IH]; intros acc; [done|].
  cbn [fmap list_fmap load_document_mapping]. rewrite of_str_str. cbn. apply IH.
Qed.

Lemma load_inverted_index_saved (l : list (string * list Z)) :
  load_inverted_index
    ((fun '(term, postings) => (term, TermInfo (Z.of_nat (length postings)) postings)) <$> l)
  = foldl (fun m '(k, v) => <[k := v]> m) ∅ l.
Proof.
  unfold load_inverted_index. generalize (∅ : gmap string (list Z)).
  induction l as [|[term postings] l IH]; intros acc; [done|]. cbn. apply IH.
Qed.

(** The inner loop on the saved positions of one term: nothing for a term
    without a document, else the positions of the term are set. *)
Lemma load_positions_saved term pos (l : list (Z * list Z)) :
  load_positions term pos ((fun '(doc_id, positions) => (Int.str doc_id, positions)) <$> l)
  = (match l with
     | [] => pos
     | _ => <[term := foldl (fun m '(k, v) => <[k := v]> m) (default ∅ (pos !! term)) l]> pos
     end, None).
Proof.
  revert pos. induction l as [|[doc_id positions] l IH]; intros pos; [done|].
  cbn [fmap list_fmap load_positions]. rewrite of_str_str. rewrite IH.
  destruct l as [|entry l]; [done|].
  rewrite lookup_insert_eq. cbn [default]. by rewrite insert_insert_eq.
Qed.

Lemma load_positional_index_saved pos (l : list (string * gmap Z (list Z))) :
  NoDup l.*1 →
  (∀ term, term ∈ l.*1 → pos !! term = None) →
  ∃ pos',
    load_positional_index pos
      ((fun '(term, inner) =>
          (term, (fun '(doc_id, positions) => (Int.str doc_id, positions)) <$> map_to_list inner))
         <$> l)
    = (pos', None)
    ∧ ∀ term, pos' !! term = match (list_to_map l : gmap string (gmap Z (list Z))) !! term with
                             | Some inner => kept inner
                             | None => pos !! term
                             end.
Proof.
  revert pos. induction l as [|[term0 inner] l IH]; intros pos Hl Hpos.
  - exists pos. done.
  - apply NoDup_cons in Hl as [Hterm0 Hl].
    cbn [fmap list_fmap load_positional_index]. rewrite load_positions_saved.
    rewrite (Hpos term0) by left. cbn [default].
    set (pos1 := match map_to_list inner with
                 | [] => pos
                 | _ => <[term0 := foldl (fun m '(k, v) => <[k := v]> m) ∅ (map_to_list inner)]> pos
                 end).
    assert (∀ term, pos1 !! term = if bool_decide (term = term0) then kept inner
                                   else pos !! term) as Hpos1.
    { intros term. unfold pos1, kept. case_bool_decide as Hterm.
      - subst. destruct (decide (inner = ∅)) as [->|Hne].
        + rewrite map_to_list_empty, bool_decide_eq_true_2 by done. apply Hpos. left.
        + rewrite bool_decide_eq_false_2 by done.
          destruct (map_to_list inner) eqn:E; [by apply map_to_list_empty_iff in E|].
          rewrite <- E, foldl_insert_map_to_list. apply lookup_insert_eq.
      - destruct (map_to_list inner); [done|]. by rewrite lookup_insert_ne. }
    destruct (IH pos1 Hl) as (pos' & -> & Hpos').
    { intros term Hin. rewrite Hpos1, bool_decide_eq_false_2; [|by intros ->].
      apply Hpos. by right. }
    exists pos'. split; [done|]. intros term. rewrite Hpos'. cbn [list_to_map foldr].
    cbn. destruct (decide (term = term0)) as [->|Hne].
    + rewrite lookup_insert_eq, not_elem_of_list_to_map_1 by done.
      by rewrite Hpos1, bool_decide_eq_true_2.
    + rewrite lookup_insert_ne by done. destruct (list_to_map l !! term); [done|].
      by rewrite Hpos1, bool_decide_eq_false_2.
Qed.

(** Loading what was saved: no exception, the document map and the
    inverted index as they were, and of the positional index every term
    that has a document. *)
Lemma load_saved now x other :
  ∃ pos,
    _load_indexes (_save_indexes docs_folder now x) other
    = (Indexes (doc_ids x) (inverted_index x) pos, None)
    ∧ ∀ term, pos !! term = positional_index x !! term ≫= kept.
Proof.
  unfold _load_indexes, _save_indexes. cbn [document_mapping snapshot_inverted_index
    snapshot_positional_index].
  rewrite load_document_mapping_saved, foldl_insert_map_to_list.
  rewrite load_inverted_index_saved, foldl_insert_map_to_list.
  destruct (load_positional_index_saved ∅ (map_to_list (positional_index x)))
    as (pos & -> & Hpos); [apply NoDup_fst_map_to_list|done|].
  exists pos. split; [done|]. intros term. rewrite Hpos, list_to_map_to_list.
  by destruct (positional_index x !! term).
Qed.

(** C5: loading a saved snapshot raises nothing and restores the document
    map, the inverted index and, for every term and doc_id, the position
    list, whatever the time stamp and whatever the indexes were before the
    load. The doc_id keys, written as text, are integers again. *)
Theorem snapshot_round_trip (now : string) (x other : indexes) :
  (_load_indexes (_save_indexes docs_folder now x) other).2 = None
  ∧ doc_ids (_load_indexes (_save_indexes docs_folder now x) other).1 = doc_ids x
  ∧ inverted_index (_load_indexes (_save_indexes docs_folder now x) other).1 = inverted_index x
  ∧ ∀ term doc_id,
      positional_index (_load_indexes (_save_indexes docs_folder now x) other).1 !! term
        ≫= (.!! doc_id)
      = positional_index x !! term ≫= (.!! doc_id).
Proof.
  destruct (load_saved now x other) as (pos & -> & Hpos). cbn. split_and!; [done..|].
  intros term doc_id. rewrite Hpos. destruct (positional_index x !! term) as [inner|]; [|done].
  cbn. unfold kept. case_bool_decide as Hinner; [|done]. subst. by rewrite lookup_empty.
Qed.

(** When every term of the positional index has a document, as after a
    build, the indexes loaded are the indexes saved. *)
Lemma snapshot_round_trip_eq now x other :
  map_Forall (fun _ inner => inner ≠ (∅ : gmap Z (list Z))) (positional_index x) →
  (_load_indexes (_save_indexes docs_folder now x) other).1 = x.
Proof.
  intros Hx. destruct (load_saved now x other) as (pos & -> & Hpos). cbn.
  destruct x as [ids inv pos0]. cbn in *. f_equal. apply map_eq. intros term.
  rewrite Hpos. destruct (pos0 !! term) as [inner|] eqn:E; [|done]. cbn.
  unfold kept. rewrite bool_decide_eq_false_2; [done|]. by apply (Hx term).
Qed.


End Store.

(** ** Queries leave the indexes as they are *)

Section Frame.

Variable stem : string → string.
Variable hash : string → Z.
Variable stop_words : gset string.
Variable docs_folder : string.
Variable read_document : string → read_result.



End Frame.

(** ** Examples on the corpus *)


Lemma proximity_symmetric_witness :
  is_term "cat" = true ∧ is_term "dog" = true ∧ 0 ≤ 3
  ∧ value (process_query Example.plain_stem Example.constant_hash Example.engine 1
             (proximity_query "cat" "dog" 3))
    = value (process_query Example.plain_stem Example.constant_hash Example.engine 1
               (proximity_query "dog" "cat" 3)).
Proof.
  split_and!; [reflexivity|reflexivity|lia|].
  apply (proximity_symmetric Example.plain_stem Example.constant_hash Example.engine 1
           "cat" "dog" 3); [reflexivity|reflexivity|lia].
Defined.




(** C4, as stated, fails on a listing with an entry that is not a document:
    [notes.md] takes the index 1, the two documents get 0 and 2, and no
    document gets 1. *)
Lemma consecutive_ids_counterexample :
  Example.listing = ["a.txt"; "notes.md"; "b.txt"]
  ∧ doc_ids Example.engine !! 0 = Some "a.txt"
  ∧ doc_ids Example.engine !! 1 = None
  ∧ doc_ids Example.engine !! 2 = Some "b.txt"
  ∧ size (doc_ids Example.engine) = 2%nat
  ∧ ¬ consecutive_ids (doc_ids Example.engine).
Proof.
  assert (doc_ids Example.engine !! 2 = Some "b.txt") as H2 by (vm_compute; reflexivity).
  assert (size (doc_ids Example.engine) = 2%nat) as Hsize by (vm_compute; reflexivity).
  split_and!; [reflexivity|vm_compute; reflexivity|vm_compute; reflexivity|done|done|].
  intros Hids. destruct (Hids 2) as [Hlt _]. rewrite Hsize in Hlt.
  destruct Hlt; [by rewrite H2|lia].
Qed.

(** C2, as stated, fails on a document with a stop word before a term. The
    tokens of ["the cat saw the dog"] are [the], [cat], [saw], [the], [dog];
    [the] is a stop word. The positions stored for [cat], [saw] and [dog]
    are 1, 2 and 4, their indexes among all the tokens, and not 0, 1 and 2,
    their indexes among the tokens that are kept. *)
Lemma retained_position_counterexample :
  Example.read_document "docs/a.txt" = Content "the cat saw the dog"
  ∧ _preprocess_text Example.plain_stem Example.stop_words "the cat saw the dog"
    = [("cat", 1); ("saw", 2); ("dog", 4)]
  ∧ retained_positions Example.plain_stem Example.stop_words "the cat saw the dog"
    = [("cat", 0); ("saw", 1); ("dog", 2)]
  ∧ positions_of (positional_index Example.engine) "cat" 0 = [1]
  ∧ positions_of (positional_index Example.engine) "dog" 0 = [4].
Proof. vm_compute. split_and!; reflexivity. Qed.

(** ** The engine without a snapshot, and the patterns on small inputs *)

Lemma init_without_snapshot stem stop_words docs_folder read_document now listing :
  (__init__ stem stop_words docs_folder read_document NoFile now listing).1
  = build_from_scratch stem stop_words docs_folder read_document listing
  ∧ (__init__ stem stop_words docs_folder read_document Unreadable now listing).1
    = build_from_scratch stem stop_words docs_folder read_document listing.
Proof. done. Qed.

Example split_operators :
  Re.split "time AND series OR classification"
  = ["time"; "AND"; "series"; "OR"; "classification"].
Proof. reflexivity. Qed.

Example split_greedy_space :
  Re.split "a AND  AND b  NOT c OR " = ["a"; "AND"; "AND b"; "NOT"; "c"; "OR"; ""].
Proof. reflexivity. Qed.

Example split_needs_space : Re.split "NOT a ANDROID b" = ["NOT a ANDROID b"].
Proof. reflexivity. Qed.

Example match_proximity_lazy : Re.match_proximity "x /5 /3" = Some ("x /5", "3").
Proof. reflexivity. Qed.

Example match_proximity_space_after_slash :
  Re.match_proximity "neural information / 2" = Some ("neural information", "2").
Proof. reflexivity. Qed.

Example match_proximity_no_space : Re.match_proximity "cat dog/3" = None.
Proof. reflexivity. Qed.

Example findall_word_boundaries :
  Re.findall_words "the cat, abc1 x_y z9 dog's" = ["the"; "cat"; "dog"; "s"].
Proof. reflexivity. Qed.

Example int_of_text :
  Int.of_str " -1_0 " = Some (-10) ∧ Int.of_str "1__0" = None ∧ Int.of_str "" = None
  ∧ Int.of_str "007" = Some 7 ∧ Int.str (-42) = "-42" ∧ Int.str 0 = "0".
Proof. vm_compute. split_and!; reflexivity. Qed.

Example engine_doc_ids :
  map_to_list (doc_ids Example.engine) = [(2, "b.txt"); (0, "a.txt")].
Proof. vm_compute. reflexivity. Qed.

Example engine_queries :
  value (process_query Example.plain_stem Example.constant_hash Example.engine 10
           "cat AND dog") = Ok [0]
  ∧ value (process_query Example.plain_stem Example.constant_hash Example.engine 10
             "bird OR dog NOT saw") = Ok []
  ∧ value (process_query Example.plain_stem Example.constant_hash Example.engine 10
             "bird OR (dog AND cat)") = Ok [0; 2]
  ∧ value (process_query Example.plain_stem Example.constant_hash Example.engine 10
             "cat dog /2") = Ok []
  ∧ value (process_query Example.plain_stem Example.constant_hash Example.engine 10
             "cat dog /3") = Ok [0]
  ∧ value (process_query Example.plain_stem Example.constant_hash Example.engine 10
             "(cat AND dog") = Raise RecursionError
  ∧ value (process_query Example.plain_stem Example.constant_hash Example.engine 10
             " Cat ") = Ok [0; 2].
Proof. vm_compute. split_and!; reflexivity. Qed.

(** An opening bracket that is never closed sends the two evaluators back
    and forth to each other until the interpreter gives up, whatever depth
    it allows. *)
Lemma unclosed_bracket_recursion stem hash self fuel :
  _process_boolean_query stem hash self fuel "(cat AND dog" = None
  ∧ _process_bracketed_query stem hash self fuel "(cat AND dog" = None.
Proof.
  induction fuel as [|fuel [IHb IHk]]; [done|].
  cbn [_process_boolean_query _process_bracketed_query].
  change (Str.contains "(" "(cat AND dog") with true.
  change (find_group 0 [] "(cat AND dog") with (@None (nat * nat)).
  by cbn [negb].
Qed.

(** * Further properties of the code *)

(** ** What every evaluator returns *)

Lemma apply_operator_elem operator (result docs : gset Z) d :
  d ∈ apply_operator operator result docs → d ∈ result ∨ d ∈ docs.
Proof. unfold apply_operator. repeat case_bool_decide; set_solver. Qed.

Section Results.

Variable stem : string → string.
Variable hash : string → Z.
Variable self : indexes.

Lemma term_docs_posted term d : d ∈ term_docs stem self term → posted self d.
Proof. intros Hd%elem_of_get_set. by exists (stem term). Qed.

Lemma boolean_loop_elem tokens result d :
  d ∈ boolean_loop stem self result tokens → d ∈ result ∨ posted self d.
Proof.
  revert result. induction tokens as [tokens IH] using (induction_ltof1 _ length).
  intros result. destruct tokens as [|operator [|token rest]]; [by left..|].
  cbn [boolean_loop]. case_bool_decide; [by left|].
  intros [Hd|Hd]%IH; [|by right|unfold ltof; cbn; lia].
  apply apply_operator_elem in Hd as [?|?%term_docs_posted]; auto.
Qed.

Lemma bracketed_loop_elem placeholder inner_result tokens result d :
  d ∈ bracketed_loop stem self placeholder inner_result result tokens →
  d ∈ result ∨ d ∈ inner_result ∨ posted self d.
Proof.
  revert result. induction tokens as [tokens IH] using (induction_ltof1 _ length).
  intros result. destruct tokens as [|operator [|term rest]]; [by left..|].
  cbn [bracketed_loop]. case_bool_decide; [by left|].
  intros [Hd|Hd]%IH; [|by right|unfold ltof; cbn; lia].
  apply apply_operator_elem in Hd as [?|Hd]; [by left|].
  case_bool_decide.
  - apply elem_of_list_to_set in Hd. auto.
  - apply term_docs_posted in Hd. auto.
Qed.

Lemma flat_boolean_query_result query :
  Sorted Z.le (flat_boolean_query stem self query)
  ∧ ∀ d, d ∈ flat_boolean_query stem self query → posted self d.
Proof.
  unfold flat_boolean_query. destruct (Re.split query) as [|token [|operator rest]].
  - split; [constructor|]. by intros d ?%elem_of_nil.
  - split; [apply sorted_ascending|]. intros d. rewrite elem_of_sorted. intros Hd. unfold posted. eexists. exact Hd.
  - split; [apply sorted_ascending|].
    intros d. rewrite elem_of_sorted_elements. intros [Hd|Hd]%boolean_loop_elem; [|done].
    by apply term_docs_posted in Hd.
Qed.

Lemma boolean_query_unfold fuel query :
  _process_boolean_query stem hash self (S fuel) query
  = if Str.contains "(" query then _process_bracketed_query stem hash self fuel query
    else Some (flat_boolean_query stem self query).
Proof. reflexivity. Qed.

Lemma bracketed_query_unfold fuel query :
  _process_bracketed_query stem hash self (S fuel) query
  = if negb (Str.contains "(" query) then _process_boolean_query stem hash self fuel query
    else
      match find_group 0 [] query with
      | Some (start, end_) =>
          inner_result ← _process_boolean_query stem hash self fuel
                            (Str.strip (Str.slice (S start) end_ query));
          let placeholder := "RESULT_" +:+ Int.str (hash (Int.str_list inner_result)) in
          let new_query :=
            Str.take start query +:+ placeholder +:+ Str.drop (S end_) query in
          final_result ← _process_bracketed_query stem hash self fuel new_query;
          let direct :=
            match final_result with
            | [d] => Str.startswith "RESULT_" (Int.str d)
            | _ => false
            end in
          if direct then Some inner_result
          else
            match Re.split new_query with
            | [] => Some []
            | token :: rest =>
                let result :=
                  if bool_decide (token = placeholder) then list_to_set inner_result
                  else term_docs stem self (Str.lower token) in
                Some (sorted (elements
                                (bracketed_loop stem self placeholder inner_result result rest)))
            end
      | None => _process_boolean_query stem hash self fuel query
      end.
Proof. reflexivity. Qed.

(** Both boolean evaluators, at every depth: what they return is sorted and
    comes from the posting lists. *)
Lemma boolean_query_result fuel :
  (∀ query ids, _process_boolean_query stem hash self fuel query = Some ids →
     Sorted Z.le ids ∧ ∀ d, d ∈ ids → posted self d)
  ∧ (∀ query ids, _process_bracketed_query stem hash self fuel query = Some ids →
       Sorted Z.le ids ∧ ∀ d, d ∈ ids → posted self d).
Proof.
  induction fuel as [|fuel [IHb IHk]]; [done|]. split; intros query ids.
  - rewrite boolean_query_unfold. destruct (Str.contains "(" query); [apply IHk|].
    intros ?; simplify_eq. apply flat_boolean_query_result.
  - rewrite bracketed_query_unfold.
    destruct (negb (Str.contains "(" query)); [apply IHb|].
    destruct (find_group 0 [] query) as [[start end_]|]; [|apply IHb].
    intros (inner_result & Hinner & Hids)%bind_Some. revert Hids. cbn zeta.
    intros (final_result & _ & Hids)%bind_Some. revert Hids.
    destruct (IHb _ _ Hinner) as [Hsorted Hposted].
    destruct (match final_result with
              | [d] => Str.startswith "RESULT_" (Int.str d)
              | _ => false
              end).
    { intros ?; by simplify_eq. }
    destruct (Re.split _) as [|token rest].
    { intros ?; simplify_eq. split; [constructor|]. by intros d ?%elem_of_nil. }
    intros ?; simplify_eq. split; [apply sorted_ascending|].
    intros d. rewrite elem_of_sorted_elements.
    intros [Hd|[Hd|Hd]]%bracketed_loop_elem; [|by auto..].
    case_bool_decide.
    + apply elem_of_list_to_set in Hd. auto.
    + by apply term_docs_posted in Hd.
Qed.

(** The digits the pattern of the proximity query hands to [int] always
    denote a number. *)
Lemma match_proximity_digits query terms_part digits :
  Re.match_proximity query = Some (terms_part, digits) → is_Some (Int.of_str digits).
Proof.
  intros (rest & _ & Htail)%match_proximity_sound.
  destruct (tail_sound _ _ Htail) as (w & w' & nl & _ & _ & _ & _ & Hne & Hdigits & _).
  destruct (of_str_digits digits Hdigits Hne) as (d & _ & ->). by eexists.
Qed.

(** What the proximity evaluator does on any indexes: it raises nothing,
    what it returns is sorted and comes from the posting lists, and it
    leaves the document map, the inverted index and every position list as
    they are. *)
Lemma proximity_query_result query :
  ∃ ids lines pos,
    _process_proximity_query stem self query
    = Run (Ok ids) lines (Indexes (doc_ids self) (inverted_index self) pos)
    ∧ Sorted Z.le ids
    ∧ (∀ d, d ∈ ids → posted self d)
    ∧ (∀ term doc_id, positions_of pos term doc_id
                      = positions_of (positional_index self) term doc_id).
Proof.
  assert (self = Indexes (doc_ids self) (inverted_index self) (positional_index self)) as Hself
    by by destruct self.
  unfold _process_proximity_query.
  destruct (Re.match_proximity query) as [[terms_part digits]|] eqn:Hmatch.
  2:{ exists [], [invalid_format], (positional_index self). rewrite <- Hself.
      split_and!; [done|constructor|by intros d ?%elem_of_nil|done]. }
  destruct (match_proximity_digits _ _ _ Hmatch) as [k ->].
  destruct (Str.split (Str.lower terms_part)) as [|term1 [|term2 [|]]];
    try (exists [], [only_two_terms], (positional_index self); rewrite <- Hself;
         split_and!; [done|constructor|by intros d ?%elem_of_nil|done]).
  destruct (proximity_fold self (stem term1) (stem term2) k
              (elements (get_set (inverted_index self) (stem term1)
                         ∩ get_set (inverted_index self) (stem term2)))
              [] (positional_index self)) as (pos' & -> & Hpos'); [done|].
  eexists _, [], pos'. split_and!; [done|apply sorted_ascending| |done].
  intros d. rewrite elem_of_sorted. intros Hd.
  apply list_elem_of_In, filter_In in Hd as [Hd _].
  apply list_elem_of_In, elem_of_elements, elem_of_intersection in Hd as [Hd _].
  apply elem_of_get_set in Hd. unfold posted. eexists. exact Hd.
Qed.

Lemma process_query_result fuel query ids :
  value (process_query stem hash self fuel query) = Ok ids →
  Sorted Z.le ids ∧ ∀ d, d ∈ ids → posted self d.
Proof.
  unfold process_query. destruct (Str.contains "/" query).
  - destruct (proximity_query_result query) as (ids' & lines & pos & -> & ? & ? & _).
    cbn. intros ?; by simplify_eq.
  - destruct (is_boolean query); cbn.
    + destruct (_process_boolean_query stem hash self fuel query) as [ids'|] eqn:E; [|done].
      intros ?; simplify_eq. by apply (boolean_query_result fuel) in E.
    + intros ?; simplify_eq. unfold simple_term_query. split; [apply sorted_ascending|].
      intros d. rewrite elem_of_sorted. intros Hd. unfold posted. eexists. exact Hd.
Qed.

(** X1: whatever the query, the list [process_query] returns is in
    ascending order. *)
Theorem query_result_sorted (fuel : nat) (query : string) (ids : list Z) :
  value (process_query stem hash self fuel query) = Ok ids → Sorted Z.le ids.
Proof. intros Hids. by apply process_query_result in Hids as [? _]. Qed.

(** X2: whatever the query, every doc_id that [process_query] returns
    stands in a posting list of the inverted index. *)
Theorem query_result_posted (fuel : nat) (query : string) (ids : list Z) (d : Z) :
  value (process_query stem hash self fuel query) = Ok ids → d ∈ ids → posted self d.
Proof. intros Hids Hd. apply process_query_result in Hids as [_ Hposted]. by apply Hposted. Qed.


(** X4: on every index state, consistent or not, a query leaves the
    document map, the inverted index and every position list as they are;
    all it can add to the positional index is an empty position list. *)
Theorem query_keeps_content (fuel : nat) (query : string) :
  doc_ids (final (process_query stem hash self fuel query)) = doc_ids self
  ∧ inverted_index (final (process_query stem hash self fuel query)) = inverted_index self
  ∧ ∀ term doc_id,
      positions_of (positional_index (final (process_query stem hash self fuel query)))
        term doc_id
      = positions_of (positional_index self) term doc_id.
Proof.
  unfold process_query. destruct (Str.contains "/" query).
  - by destruct (proximity_query_result query) as (ids & lines & pos & -> & _ & _ & Hpos).
  - by destruct (is_boolean query).
Qed.

End Results.

(** ** Brackets that are never closed *)

Lemma contains_char_cons c a r :
  Str.contains (String c EmptyString) (String a r)
  = bool_decide (c = a) || Str.contains (String c EmptyString) r.
Proof. cbn [Str.contains Str.startswith]. unfold Char.eqb. by rewrite andb_true_r. Qed.

Lemma contains_char_app c s t :
  Str.contains (String c EmptyString) (s +:+ t)
  = Str.contains (String c EmptyString) s || Str.contains (String c EmptyString) t.
Proof.
  induction s as [|a s IH]; [done|]. rewrite app_cons, !contains_char_cons, IH.
  by rewrite orb_assoc.
Qed.

Lemma find_group_unclosed i stack s :
  Str.contains ")" s = false → find_group i stack s = None.
Proof.
  revert i stack. induction s as [|c s IH]; intros i stack; [done|].
  rewrite contains_char_cons. intros [Hc Hs]%orb_false_iff. cbn [find_group].
  unfold Char.eqb. destruct (bool_decide (c = "("%char)); [by apply IH|].
  rewrite (bool_decide_eq_false_2 (c = ")"%char)); [by apply IH|].
  intros ->. by rewrite bool_decide_eq_true_2 in Hc.
Qed.

Section Unclosed.

Variable stem : string → string.
Variable hash : string → Z.
Variable self : indexes.

Lemma unclosed_bracket_loops query fuel :
  Str.contains "(" query = true → Str.contains ")" query = false →
  _process_boolean_query stem hash self fuel query = None
  ∧ _process_bracketed_query stem hash self fuel query = None.
Proof.
  intros Hopen Hclose. induction fuel as [|fuel [IHb IHk]]; [done|].
  rewrite boolean_query_unfold, bracketed_query_unfold, Hopen.
  by rewrite (find_group_unclosed _ _ _ Hclose).
Qed.

(** The plainest case of an open bracket: a boolean query with an opening
    bracket and no closing bracket raises [RecursionError] whatever depth
    of calls the interpreter allows: the two evaluators hand the same query
    to each other without end. *)
Lemma unclosed_bracket_raises (fuel : nat) (query : string) :
  Str.contains "/" query = false →
  is_boolean query = true →
  Str.contains "(" query = true →
  Str.contains ")" query = false →
  value (process_query stem hash self fuel query) = Raise RecursionError.
Proof.
  intros Hslash Hbool Hopen Hclose. unfold process_query. rewrite Hslash, Hbool.
  by destruct (unclosed_bracket_loops query fuel Hopen Hclose) as [-> _].
Qed.

End Unclosed.

(** ** Queries with one operator *)

Lemma separator_word c s : Char.is_space c = false → Re.separator (String c s) = None.
Proof. intros Hc. cbn [Re.separator]. by rewrite Hc. Qed.

Lemma re_split_go_word cur w rest :
  no_space w = true →
  Re.split_go 0 cur (w +:+ rest) = Re.split_go 0 (String.rev_app w cur) rest.
Proof.
  unfold no_space. revert cur. induction w as [|c w IH]; intros cur Hw; [done|].
  cbn [all_chars] in Hw. apply andb_true_iff in Hw as [Hc Hw].
  apply negb_true_iff in Hc. rewrite app_cons. cbn [Re.split_go String.rev_app].
  rewrite (separator_word c _ Hc). by apply IH.
Qed.

Lemma re_split_go_skip cur p rest :
  Re.split_go (String.length p) cur (p +:+ rest) = Re.split_go 0 cur rest
  ∨ rest = EmptyString.
Proof.
  destruct rest as [|c rest]; [by right|]. left.
  induction p as [|a p IH]; [done|]. rewrite app_cons. cbn [String.length Re.split_go]. done.
Qed.

Lemma is_term_cons t :
  is_term t = true →
  ∃ c r, t = String c r ∧ Char.is_space c = false ∧ no_space r = true.
Proof.
  unfold is_term, no_space. destruct t as [|c r]; [done|].
  intros [_ Hw]%andb_true_iff. cbn [all_chars] in Hw.
  apply andb_true_iff in Hw as [Hc Hw]. apply negb_true_iff in Hc. by exists c, r.
Qed.

Lemma drop_app p x : Str.drop (String.length p) (p +:+ x) = x.
Proof. induction p as [|c p IH]; [by destruct x|]. by rewrite app_cons. Qed.

Lemma operator_start operator rest :
  operator ∈ operators →
  Re.operator (operator +:+ rest) = Some operator
  ∧ Re.skip_space (operator +:+ rest) = operator +:+ rest.
Proof.
  unfold operators. rewrite !elem_of_cons, elem_of_nil.
  intros [->|[->|[->|[]]]]; done.
Qed.

Lemma separator_operator operator term :
  operator ∈ operators → is_term term = true →
  Re.separator (" " +:+ operator +:+ " " +:+ term)
  = Some (operator, S (String.length (operator +:+ " "))).
Proof.
  intros Hop (c & r & -> & Hc & _)%is_term_cons.
  destruct (operator_start operator (String " " (String c r)) Hop) as [Hoperator Hskip].
  change (" " +:+ operator +:+ " " +:+ String c r)
    with (String " " (operator +:+ String " " (String c r))).
  unfold Re.separator. change (Char.is_space " ") with true. cbv iota.
  change (Re.skip_space (String " " (operator +:+ String " " (String c r))))
    with (Re.skip_space (operator +:+ String " " (String c r))).
  rewrite Hskip, Hoperator, drop_app. change (Char.is_space " ") with true. cbv iota.
  change (Re.skip_space (String " " (String c r))) with (Re.skip_space (String c r)).
  rewrite (skip_space_word (String c r)) by done. do 2 f_equal.
  cbn [String.length]. rewrite !app_length_s. cbn [String.length]. lia.
Qed.

Lemma re_split_binary term1 operator term2 :
  no_space term1 = true → operator ∈ operators → is_term term2 = true →
  Re.split (binary_query term1 operator term2) = [term1; operator; term2].
Proof.
  intros H1 Hop H2. unfold Re.split, binary_query.
  rewrite (re_split_go_word _ term1) by done.
  pose proof (separator_operator operator term2 Hop H2) as Hsep.
  change (" " +:+ operator +:+ " " +:+ term2)
    with (String " " (operator +:+ " " +:+ term2)) in *.
  cbn [Re.split_go]. rewrite Hsep. rewrite rev_rev_app. f_equal. f_equal.
  replace (S (String.length (operator +:+ " ")) - 1)%nat
    with (String.length (operator +:+ " ")) by lia.
  rewrite <- app_assoc_s.
  destruct (re_split_go_skip EmptyString (operator +:+ " ") term2) as [-> | ->];
    [|by apply is_term_cons in H2 as (? & ? & ? & _)].
  rewrite <- (app_nil_r_s term2) at 1.
  rewrite re_split_go_word by by apply is_term_no_space.
  cbn [Re.split_go]. by rewrite rev_rev_app.
Qed.

Lemma plain_term_spec t :
  plain_term t = true →
  is_term t = true ∧ Str.contains "/" t = false ∧ Str.contains "(" t = false.
Proof.
  unfold plain_term. rewrite !andb_true_iff, !negb_true_iff. tauto.
Qed.

Lemma binary_query_plain term1 operator term2 c :
  (c = "/"%char ∨ c = "("%char) →
  Str.contains (String c EmptyString) term1 = false →
  operator ∈ operators →
  Str.contains (String c EmptyString) term2 = false →
  Str.contains (String c EmptyString) (binary_query term1 operator term2) = false.
Proof.
  intros Hc H1 Hop H2. unfold binary_query. rewrite !contains_char_app, H1, H2.
  unfold operators in Hop. rewrite !elem_of_cons, elem_of_nil in Hop.
  destruct Hc as [->| ->], Hop as [->|[->|[->|[]]]]; done.
Qed.

Lemma binary_query_boolean term1 operator term2 :
  operator ∈ operators → is_boolean (binary_query term1 operator term2) = true.
Proof.
  intros Hop. unfold is_boolean, binary_query. rewrite !orb_true_iff, !contains_spec.
  unfold operators in Hop. rewrite !elem_of_cons, elem_of_nil in Hop.
  destruct Hop as [->|[->|[->|[]]]].
  - left. left. by exists term1, term2.
  - left. right. by exists term1, term2.
  - right. exists (term1 +:+ " "), term2. by rewrite app_assoc_s.
Qed.

Section BinaryQueries.

Variable stem : string → string.
Variable hash : string → Z.
Variable self : indexes.

(** What [process_query] does with [term1 OP term2]: one step of the loop. *)
Lemma binary_query_run fuel term1 operator term2 :
  plain_term term1 = true → operator ∈ operators → plain_term term2 = true →
  process_query stem hash self (S fuel) (binary_query term1 operator term2)
  = Run (Ok (sorted (elements
               (apply_operator operator
                  (get_set (inverted_index self) (stem (Str.lower term1)))
                  (get_set (inverted_index self) (stem (Str.lower term2)))))))
        [] self.
Proof.
  intros (H1 & Hs1 & Hb1)%plain_term_spec Hop (H2 & Hs2 & Hb2)%plain_term_spec.
  unfold process_query.
  rewrite (binary_query_plain _ _ _ "/"%char) by auto.
  rewrite binary_query_boolean by done. rewrite boolean_query_unfold.
  rewrite (binary_query_plain _ _ _ "("%char) by auto.
  unfold flat_boolean_query.
  rewrite re_split_binary by (try apply is_term_no_space; done).
  cbn [boolean_loop]. rewrite bool_decide_eq_false_2; [done|].
  rewrite lower_empty. intros ->. done.
Qed.

Lemma binary_query_elem fuel term1 operator term2 d :
  plain_term term1 = true → operator ∈ operators → plain_term term2 = true →
  ∃ ids,
    value (process_query stem hash self (S fuel) (binary_query term1 operator term2)) = Ok ids
    ∧ (d ∈ ids ↔
       d ∈ apply_operator operator
             (get_set (inverted_index self) (stem (Str.lower term1)))
             (get_set (inverted_index self) (stem (Str.lower term2)))).
Proof.
  intros H1 Hop H2. rewrite (binary_query_run fuel _ _ _ H1 Hop H2).
  eexists. split; [done|]. apply elem_of_sorted_elements.
Qed.

Lemma operator_AND : "AND" ∈ operators.
Proof. unfold operators. set_solver. Qed.
Lemma operator_OR : "OR" ∈ operators.
Proof. unfold operators. set_solver. Qed.
Lemma operator_NOT : "NOT" ∈ operators.
Proof. unfold operators. set_solver. Qed.

(** X5: every document that [term1 AND term2] returns is returned by
    [term1 OR term2]. *)
Theorem and_within_or (fuel : nat) (term1 term2 : string) (ids_and ids_or : list Z) :
  plain_term term1 = true → plain_term term2 = true →
  value (process_query stem hash self (S fuel) (binary_query term1 "AND" term2)) = Ok ids_and →
  value (process_query stem hash self (S fuel) (binary_query term1 "OR" term2)) = Ok ids_or →
  ids_and ⊆ ids_or.
Proof.
  intros H1 H2 Hand Hor d.
  destruct (binary_query_elem fuel term1 "AND" term2 d H1 operator_AND H2) as (? & E1 & Hd1).
  destruct (binary_query_elem fuel term1 "OR" term2 d H1 operator_OR H2) as (? & E2 & Hd2).
  rewrite Hand in E1. rewrite Hor in E2. simplify_eq. rewrite Hd1, Hd2.
  unfold apply_operator. cbn. set_solver.
Qed.

(** X6: [term1 AND term2] and [term2 AND term1] return the same list, and
    so do [term1 OR term2] and [term2 OR term1]. *)
Theorem and_or_commute (fuel : nat) (term1 term2 : string) :
  plain_term term1 = true → plain_term term2 = true →
  process_query stem hash self (S fuel) (binary_query term1 "AND" term2)
  = process_query stem hash self (S fuel) (binary_query term2 "AND" term1)
  ∧ process_query stem hash self (S fuel) (binary_query term1 "OR" term2)
    = process_query stem hash self (S fuel) (binary_query term2 "OR" term1).
Proof.
  intros H1 H2. rewrite !binary_query_run by auto using operator_AND, operator_OR.
  unfold apply_operator. cbn. split; do 4 f_equal; set_solver.
Qed.

(** X7: [term1 AND term2] and [term1 NOT term2] split the documents of
    [term1]: a document is in the posting list of the stem of [term1]
    exactly when one of the two queries returns it, and never both do. *)
Theorem and_not_split (fuel : nat) (term1 term2 : string) (ids_and ids_not : list Z) (d : Z) :
  plain_term term1 = true → plain_term term2 = true →
  value (process_query stem hash self (S fuel) (binary_query term1 "AND" term2)) = Ok ids_and →
  value (process_query stem hash self (S fuel) (binary_query term1 "NOT" term2)) = Ok ids_not →
  (d ∈ get (inverted_index self) (stem (Str.lower term1)) ↔ d ∈ ids_and ∨ d ∈ ids_not)
  ∧ ¬ (d ∈ ids_and ∧ d ∈ ids_not).
Proof.
  intros H1 H2 Hand Hnot.
  destruct (binary_query_elem fuel term1 "AND" term2 d H1 operator_AND H2) as (? & E1 & Hd1).
  destruct (binary_query_elem fuel term1 "NOT" term2 d H1 operator_NOT H2) as (? & E2 & Hd2).
  rewrite Hand in E1. rewrite Hnot in E2. simplify_eq. rewrite Hd1, Hd2.
  rewrite <- elem_of_get_set. unfold apply_operator. cbn.
  destruct (decide (d ∈ get_set (inverted_index self) (stem (Str.lower term2)))); set_solver.
Qed.

End BinaryQueries.

(** ** More on proximity queries *)

Lemma within_mono k1 k2 ps1 ps2 :
  k1 ≤ k2 → within k1 ps1 ps2 = true → within k2 ps1 ps2 = true.
Proof.
  rewrite !within_spec. intros Hk (p1 & p2 & ? & ? & ?). exists p1, p2.
  split_and!; [done..|lia].
Qed.

Section ProximityOrder.

Variable stem : string → string.
Variable hash : string → Z.
Variable self : indexes.

Lemma proximity_query_elem fuel term1 term2 k ids d :
  is_term term1 = true → is_term term2 = true → 0 ≤ k →
  value (process_query stem hash self fuel (proximity_query term1 term2 k)) = Ok ids →
  d ∈ ids ↔
  d ∈ get_set (inverted_index self) (stem (Str.lower term1))
      ∩ get_set (inverted_index self) (stem (Str.lower term2))
  ∧ matches self (stem (Str.lower term1)) (stem (Str.lower term2)) k d = true.
Proof.
  intros H1 H2 Hk. destruct (proximity_query_value stem hash self fuel _ _ _ H1 H2 Hk) as [-> _].
  intros ?; simplify_eq.
  by rewrite elem_of_sorted, list_elem_of_In, filter_In, <- list_elem_of_In, elem_of_elements.
Qed.

(** X8: a larger distance never loses a document: for [k1 <= k2], what
    [term1 term2 /k1] returns is returned by [term1 term2 /k2]. *)
Theorem proximity_monotone (fuel : nat) (term1 term2 : string) (k1 k2 : Z)
    (ids1 ids2 : list Z) :
  is_term term1 = true → is_term term2 = true → 0 ≤ k1 → k1 ≤ k2 →
  value (process_query stem hash self fuel (proximity_query term1 term2 k1)) = Ok ids1 →
  value (process_query stem hash self fuel (proximity_query term1 term2 k2)) = Ok ids2 →
  ids1 ⊆ ids2.
Proof.
  intros H1 H2 Hk1 Hk12 Hids1 Hids2 d.
  rewrite (proximity_query_elem fuel term1 term2 k1 ids1 d H1 H2 Hk1 Hids1).
  rewrite (proximity_query_elem fuel term1 term2 k2 ids2 d H1 H2 ltac:(lia) Hids2).
  intros [? Hnear]. split; [done|]. by apply (within_mono k1 k2).
Qed.

(** X9: a proximity query returns only documents that the conjunction of
    its two terms returns: what [term1 term2 /k] returns is returned by
    [term1 AND term2]. *)
Theorem proximity_within_and (fuel : nat) (term1 term2 : string) (k : Z)
    (ids_near ids_and : list Z) :
  plain_term term1 = true → plain_term term2 = true → 0 ≤ k →
  value (process_query stem hash self (S fuel) (proximity_query term1 term2 k)) = Ok ids_near →
  value (process_query stem hash self (S fuel) (binary_query term1 "AND" term2)) = Ok ids_and →
  ids_near ⊆ ids_and.
Proof.
  intros H1 H2 Hk Hnear Hand d.
  pose proof (plain_term_spec _ H1) as (T1 & _). pose proof (plain_term_spec _ H2) as (T2 & _).
  rewrite (proximity_query_elem (S fuel) term1 term2 k ids_near d T1 T2 Hk Hnear).
  rewrite (binary_query_run stem hash self fuel _ _ _ H1 operator_AND H2) in Hand.
  cbn in Hand. simplify_eq. rewrite elem_of_sorted_elements. by intros [? _].
Qed.

End ProximityOrder.

(** ** Queries on the indexes of a build *)

Section BuiltQueries.

Variable stem : string → string.
Variable hash : string → Z.
Variable stop_words : gset string.
Variable docs_folder : string.
Variable read_document : string → read_result.

Local Abbreviation built_engine :=
  (build_from_scratch stem stop_words docs_folder read_document).

(** The posting list of a term after a build: the documents of the listing
    with a token that is no stop word and has the term as its stem. *)
Lemma build_posting_spec listing term doc_id :
  doc_id ∈ get (inverted_index (built_engine listing)) term ↔
  ∃ name text token,
    0 ≤ doc_id
    ∧ listing !! Z.to_nat doc_id = Some name
    ∧ Str.endswith ".txt" name = true
    ∧ read_document (path_join docs_folder name) = Content text
    ∧ token ∈ Re.findall_words (Str.lower text)
    ∧ token ∉ stop_words
    ∧ stem token = term.
Proof.
  destruct (build_facts stem stop_words docs_folder read_document listing) as (_ & _ & Hinv).
  rewrite Hinv, elem_of_documents_with. split.
  - intros (name & text & Hat & Hterm).
    apply entry_at_lookup in Hat as (? & Hl & [??]%(accepted_spec stem)). rewrite Z.sub_0_r in Hl.
    rewrite elem_of_terms_of in Hterm.
    destruct (stored_positions stem stop_words term text) as [|p ps] eqn:E; [done|].
    assert (p ∈ stored_positions stem stop_words term text) as Hp by (rewrite E; left).
    rewrite elem_of_stored_positions, elem_of_preprocess in Hp.
    destruct Hp as (token & ? & Hl' & ? & ?).
    exists name, text, token. split_and!; try done. by apply list_elem_of_lookup_2 in Hl'.
  - intros (name & text & token & ? & Hl & ? & ? & [i Hi]%list_elem_of_lookup_1 & ? & ?).
    exists name, text. split.
    + apply entry_at_lookup. rewrite Z.sub_0_r. split_and!; [done..|]. by apply (accepted_spec stem).
    + rewrite elem_of_terms_of. intros Hnil.
      assert (Z.of_nat i ∈ stored_positions stem stop_words term text) as Hin.
      { rewrite elem_of_stored_positions, elem_of_preprocess. exists token.
        rewrite Nat2Z.id. split_and!; [lia|done..]. }
      rewrite Hnil in Hin. by apply elem_of_nil in Hin.
Qed.

Lemma build_posted_known listing term doc_id :
  doc_id ∈ get (inverted_index (built_engine listing)) term →
  is_Some (doc_ids (built_engine listing) !! doc_id).
Proof.
  destruct (build_facts stem stop_words docs_folder read_document listing) as (Hids & _ & Hinv).
  rewrite Hinv, elem_of_documents_with, Hids. intros (name & text & -> & _). by eexists.
Qed.

(** X10: on the indexes of a build, a query without a slash and without an
    operator returns exactly the documents in which some token that is no
    stop word has the stem of the trimmed, lower-cased query. A term that
    no document holds gives the empty list. *)
Theorem simple_query_finds_documents (listing : list string) (fuel : nat) (query : string)
    (ids : list Z) (d : Z) :
  Str.contains "/" query = false →
  is_boolean query = false →
  value (process_query stem hash (built_engine listing) fuel query) = Ok ids →
  d ∈ ids ↔
  ∃ name text token,
    0 ≤ d
    ∧ listing !! Z.to_nat d = Some name
    ∧ Str.endswith ".txt" name = true
    ∧ read_document (path_join docs_folder name) = Content text
    ∧ token ∈ Re.findall_words (Str.lower text)
    ∧ token ∉ stop_words
    ∧ stem token = stem (Str.lower (Str.strip query)).
Proof.
  intros Hslash Hbool. unfold process_query. rewrite Hslash, Hbool. cbn [value].
  intros ?; simplify_eq. unfold simple_term_query.
  by rewrite elem_of_sorted, build_posting_spec.
Qed.

(** X11: on the indexes of a build, every doc_id that a query returns is a
    key of the document map, so that [print_results] finds its file name. *)
Theorem query_result_known (listing : list string) (fuel : nat) (query : string)
    (ids : list Z) (d : Z) :
  value (process_query stem hash (built_engine listing) fuel query) = Ok ids →
  d ∈ ids →
  is_Some (doc_ids (built_engine listing) !! d).
Proof.
  intros Hids Hd. apply process_query_result in Hids as [_ Hposted].
  destruct (Hposted d Hd) as [term Hterm]. by apply build_posted_known in Hterm.
Qed.

End BuiltQueries.

(** ** More on the indexes of a build *)

Lemma append_position_tidy pos term doc_id p :
  map_Forall (fun _ inner => inner ≠ (∅ : gmap Z (list Z))
                             ∧ map_Forall (fun _ ps => ps ≠ []) inner) pos →
  map_Forall (fun _ inner => inner ≠ (∅ : gmap Z (list Z))
                             ∧ map_Forall (fun _ ps => ps ≠ []) inner)
             (append_position pos term doc_id p).
Proof.
  intros Hpos. unfold append_position. apply map_Forall_insert_2; [|done]. split.
  - apply insert_non_empty.
  - apply map_Forall_insert_2; [by destruct (default [] _)|].
    destruct (pos !! term) as [inner|] eqn:E; cbn; [by apply (Hpos term inner)|].
    apply map_Forall_empty.
Qed.

Lemma set_fold_append_posting_tidy doc_id inv (terms : gset string) :
  map_Forall (fun _ l => l ≠ []) inv →
  map_Forall (fun _ l => l ≠ []) (set_fold (append_posting doc_id) inv terms).
Proof.
  intros Hinv.
  refine (set_fold_ind_L (fun r (X : gset string) => map_Forall (fun _ l => l ≠ []) r)
            (append_posting doc_id) inv Hinv _ terms).
  intros x X r _ Hr. unfold append_posting. apply map_Forall_insert_2; [|done].
  by destruct (get r x).
Qed.

Lemma sorted_cons_bound (start : Z) (l : list Z) :
  (∀ d, d ∈ l → start < d) → StronglySorted Z.lt l → StronglySorted Z.lt (start :: l).
Proof. intros Hl Hs. constructor; [done|]. by apply Forall_forall. Qed.

Section BuildShape.

Variable stem : string → string.
Variable stop_words : gset string.
Variable docs_folder : string.
Variable read_document : string → read_result.

Local Abbreviation shape_build :=
  (build_from_scratch stem stop_words docs_folder read_document).
Local Abbreviation shape_entry := (build_entry stem stop_words docs_folder read_document).

Lemma foldl_index_token_tidy doc_id tokens terms0 pos :
  map_Forall (fun _ inner => inner ≠ (∅ : gmap Z (list Z))
                             ∧ map_Forall (fun _ ps => ps ≠ []) inner) pos →
  map_Forall (fun _ inner => inner ≠ (∅ : gmap Z (list Z))
                             ∧ map_Forall (fun _ ps => ps ≠ []) inner)
             (foldl (index_token doc_id) (terms0, pos) tokens).2.
Proof.
  revert terms0 pos. induction tokens as [|[term p] tokens IH]; intros terms0 pos Hpos; [done|].
  cbn [foldl index_token]. by apply IH, append_position_tidy.
Qed.

Lemma build_entry_tidy b entry :
  tidy (built b) → tidy (built (shape_entry b entry)).
Proof.
  intros [Hinv Hpos]. destruct entry as [doc_id name]. unfold build_entry.
  destruct (negb (Str.endswith ".txt" name)); [done|].
  destruct (read_document (path_join docs_folder name)) as [text|message]; [|done].
  pose proof (foldl_index_token_tidy doc_id (_preprocess_text stem stop_words text) ∅
                (positional_index (built b)) Hpos) as Hpos'.
  destruct (foldl (index_token doc_id) _ _) as [terms pos']. cbn in *. split; cbn; [|done].
  by apply set_fold_append_posting_tidy.
Qed.

Lemma build_pass_tidy b entries :
  tidy (built b) → tidy (built (foldl shape_entry b entries)).
Proof.
  revert b. induction entries as [|entry entries IH]; intros b Hb; [done|].
  cbn [foldl]. by apply IH, build_entry_tidy.
Qed.

Lemma build_tidy listing : tidy (shape_build listing).
Proof.
  apply build_pass_tidy. split; cbn; apply map_Forall_empty.
Qed.

Lemma documents_with_sorted term start listing :
  StronglySorted Z.lt
    (documents_with stem stop_words docs_folder read_document term start listing).
Proof.
  revert start. induction listing as [|name rest IH]; intros start.
  - unfold documents_with. cbn. constructor.
  - rewrite documents_with_cons.
    destruct (accepted docs_folder read_document name) as [text|]; [|apply IH].
    case_bool_decide; [|apply IH]. cbn. apply sorted_cons_bound; [|apply IH].
    intros d Hd%documents_with_bound. lia.
Qed.

(** X12: after a build from scratch, every posting list of the inverted
    index is non-empty and strictly increasing: the documents stand in it
    in the order of their doc_ids. *)
Theorem postings_increasing (listing : list string) :
  map_Forall (fun _ l => l ≠ [] ∧ StronglySorted Z.lt l)
             (inverted_index (shape_build listing)).
Proof.
  intros term l Hl. destruct (build_tidy listing) as [Hinv _]. split; [by apply (Hinv term)|].
  destruct (build_facts stem stop_words docs_folder read_document listing) as (_ & _ & Hget).
  specialize (Hget term). unfold get in Hget at 1. rewrite Hl in Hget. cbn in Hget.
  rewrite Hget. apply documents_with_sorted.
Qed.

Lemma positions_of_nonempty pos term doc_id :
  positions_of pos term doc_id ≠ [] →
  ∃ inner ps, pos !! term = Some inner ∧ inner !! doc_id = Some ps ∧ ps ≠ [].
Proof.
  unfold positions_of. destruct (pos !! term) as [inner|]; [|done]. cbn.
  destruct (inner !! doc_id) as [ps|] eqn:E; [|done]. cbn. eauto.
Qed.

(** X13: after a build from scratch, the inverted index and the positional
    index have the same terms; each term of the positional index has a
    document, and each of its documents has a position. *)
Theorem indexes_same_terms (listing : list string) :
  dom (inverted_index (shape_build listing)) = dom (positional_index (shape_build listing))
  ∧ map_Forall (fun _ inner => inner ≠ (∅ : gmap Z (list Z))
                               ∧ map_Forall (fun _ ps => ps ≠ []) inner)
               (positional_index (shape_build listing)).
Proof.
  destruct (build_tidy listing) as [Hinv Hpos]. split; [|done].
  apply set_eq. intros term. rewrite !elem_of_dom. split.
  - intros [l Hl]. pose proof (Hinv term l Hl) as Hne. destruct l as [|d l]; [done|].
    assert (d ∈ get (inverted_index (shape_build listing)) term) as Hd.
    { unfold get. rewrite Hl. left. }
    apply (build_posting_positions stem stop_words docs_folder read_document) in Hd.
    apply positions_of_nonempty in Hd as (inner & _ & -> & _). by eexists.
  - intros [inner Hinner]. destruct (Hpos term inner Hinner) as [Hne Hps].
    destruct (map_choose inner Hne) as (d & ps & Hd).
    assert (d ∈ get (inverted_index (shape_build listing)) term) as Hin.
    { apply (build_posting_positions stem stop_words docs_folder read_document).
      unfold positions_of. rewrite Hinner. cbn. rewrite Hd. cbn. by apply (Hps d). }
    unfold get in Hin. destruct (inverted_index (shape_build listing) !! term); [by eexists|].
    by apply elem_of_nil in Hin.
Qed.

(** The positions that [_preprocess_text] gives to the tokens it keeps, in
    a list of tokens enumerated from [start]. *)
Lemma preprocess_positions_sorted start tokens term :
  StronglySorted Z.lt
    (filter (fun tp : string * Z => tp.1 = term)
       (omap (fun '(pos, token) =>
                if bool_decide (token ∈ stop_words) then None else Some (stem token, pos))
             (enumerate start tokens))).*2
  ∧ ∀ p, p ∈ (filter (fun tp : string * Z => tp.1 = term)
                (omap (fun '(pos, token) =>
                         if bool_decide (token ∈ stop_words) then None
                         else Some (stem token, pos))
                      (enumerate start tokens))).*2 → start ≤ p.
Proof.
  revert start. induction tokens as [|token tokens IH]; intros start.
  - cbn. split; [constructor|]. by intros p ?%elem_of_nil.
  - destruct (IH (start + 1)) as [Hsorted Hbound]. cbn [enumerate omap list_omap].
    case_bool_decide.
    + split; [done|]. intros p Hp%Hbound. lia.
    + rewrite filter_cons. cbn [fst]. case_decide.
      * cbn [fmap list_fmap snd]. split.
        -- apply sorted_cons_bound; [|done]. intros d Hd%Hbound. lia.
        -- intros p [->|Hp%Hbound]%elem_of_cons; lia.
      * split; [done|]. intros p Hp%Hbound. lia.
Qed.

(** X14: after a build from scratch, the positions stored for a term and a
    document are strictly increasing: each occurrence is stored once, in
    the order of the text. *)
Theorem positions_increasing (listing : list string) (term : string) (doc_id : Z) :
  StronglySorted Z.lt (positions_of (positional_index (shape_build listing)) term doc_id).
Proof.
  destruct (build_facts stem stop_words docs_folder read_document listing) as (_ & Hpos & _).
  rewrite Hpos. destruct (entry_at _ _ _ _ _) as [[name text]|]; [|constructor].
  apply preprocess_positions_sorted.
Qed.

Lemma build_pass_counts b start listing :
  processed_docs (foldl shape_entry b (enumerate start listing))
  = processed_docs b + Z.of_nat (indexed_count docs_folder read_document listing)
  ∧ failed_docs (foldl shape_entry b (enumerate start listing))
    = failed_docs b ++ failures docs_folder read_document listing.
Proof.
  revert b start. induction listing as [|name rest IH]; intros b start.
  - cbn. split; [lia|by rewrite app_nil_r].
  - cbn [enumerate foldl]. destruct (IH (shape_entry b (start, name)) (start + 1)) as [-> ->].
    unfold indexed_count, failures, accepted. rewrite filter_cons. cbn [omap list_omap].
    unfold build_entry. destruct (Str.endswith ".txt" name); cbn [negb].
    + destruct (read_document (path_join docs_folder name)) as [text|message].
      * destruct (foldl (index_token start) _ _) as [terms pos']. cbn.
        rewrite decide_True by by eexists. cbn. split; [lia|done].
      * cbn. rewrite decide_False by by intros [??]. split; [lia|by rewrite <- app_assoc].
    + rewrite decide_False by by intros [??]. split; [lia|done].
Qed.

Lemma build_pass_size b start listing :
  (∀ d, is_Some (doc_ids (built b) !! d) → d < start) →
  size (doc_ids (built (foldl shape_entry b (enumerate start listing))))
  = (size (doc_ids (built b)) + indexed_count docs_folder read_document listing)%nat.
Proof.
  revert b start. induction listing as [|name rest IH]; intros b start Hb.
  - cbn. unfold indexed_count. cbn. lia.
  - cbn [enumerate foldl].
    pose proof (build_entry_step stem stop_words docs_folder read_document b start name) as Hstep.
    unfold indexed_count. rewrite filter_cons. fold (indexed_count docs_folder read_document rest).
    destruct (accepted docs_folder read_document name) as [text|] eqn:Hacc.
    + destruct Hstep as (Hids & _). rewrite decide_True by by eexists.
      rewrite IH.
      2:{ intros d. rewrite Hids. destruct (decide (d = start)) as [->|Hne]; [lia|].
          rewrite lookup_insert_ne by done. intros Hd. apply Hb in Hd. lia. }
      rewrite Hids, map_size_insert_None; [unfold indexed_count; cbn [length]; lia|].
      destruct (doc_ids (built b) !! start) eqn:E; [|done].
      assert (start < start) by (apply Hb; by eexists). lia.
    + rewrite decide_False by by intros [??]. rewrite IH.
      2:{ intros d. rewrite Hstep. intros Hd. apply Hb in Hd. lia. }
      by rewrite Hstep.
Qed.

(** X15: the counters of a build from scratch. [processed_docs] is the
    number of documents in the document map; [failed_docs] lists, in the
    order of the listing, the [.txt] entries that could not be read, with
    their messages; every [.txt] entry is counted in one of the two. *)
Theorem build_counters (listing : list string) :
  let b := build_pass stem stop_words docs_folder read_document empty_indexes listing in
  processed_docs b = Z.of_nat (size (doc_ids (built b)))
  ∧ failed_docs b = failures docs_folder read_document listing
  ∧ processed_docs b + Z.of_nat (length (failed_docs b))
    = Z.of_nat (length (filter (fun name => Str.endswith ".txt" name = true) listing)).
Proof.
  cbn zeta. unfold build_pass.
  destruct (build_pass_counts (BuildState empty_indexes 0 []) 0 listing) as [Hp Hf].
  rewrite Hp, Hf, build_pass_size by (intros d [? Hd]; cbn in Hd; by rewrite lookup_empty in Hd).
  cbn [processed_docs failed_docs built doc_ids empty_indexes]. rewrite map_size_empty.
  split_and!; [lia|done|].
  clear Hp Hf. induction listing as [|name rest IH]; [done|].
  rewrite filter_cons.
  change (indexed_count docs_folder read_document (name :: rest))
    with (length (filter (fun name => is_Some (accepted docs_folder read_document name))
                    (name :: rest))).
  rewrite filter_cons.
  change (failures docs_folder read_document (name :: rest))
    with (match (if Str.endswith ".txt" name then
                   match read_document (path_join docs_folder name) with
                   | ReadError message => Some (name, message)
                   | Content _ => None
                   end
                 else None) with
          | Some y => y :: failures docs_folder read_document rest
          | None => failures docs_folder read_document rest
          end).
  unfold indexed_count in IH.
  assert (accepted docs_folder read_document name
          = if Str.endswith ".txt" name then
              match read_document (path_join docs_folder name) with
              | Content text => Some text
              | ReadError _ => None
              end
            else None) as Hacc by done.
  destruct (Str.endswith ".txt" name).
  - rewrite (decide_True (P := true = true)) by done.
    destruct (read_document (path_join docs_folder name)); rewrite Hacc.
    + rewrite decide_True by by eexists. cbn [length app] in *. lia.
    + rewrite decide_False by by intros [??]. cbn [length app] in *. lia.
  - rewrite (decide_False (P := false = true)) by done. rewrite Hacc.
    rewrite decide_False by by intros [??]. done.
Qed.

End BuildShape.

(** ** More on the snapshot *)

#[local] Instance str_inj : Inj (=) (=) Int.str.
Proof.
  intros x y Hxy. assert (Some x = Some y) as Heq; [|by simplify_eq].
  by rewrite <- (of_str_str x), <- (of_str_str y), Hxy.
Qed.

Lemma load_document_mapping_keys {acc} (items : list (string * doc_info)) :
  is_Some (load_document_mapping acc items) ↔ integer_keys items.
Proof.
  unfold integer_keys. revert acc. induction items as [|[key info] items IH]; intros acc.
  - cbn. split; [by constructor|by eexists].
  - cbn [load_document_mapping]. rewrite Forall_cons. cbn [fst].
    destruct (Int.of_str key) as [doc_id|].
    + rewrite IH. split; [by split|by intros [_ ?]].
    + split; [by intros [??]|by intros [[??] _]].
Qed.



Section StoreBehaviour.

Variable docs_folder : string.


(** X17: the object that [_save_indexes] writes is well formed. The counts
    of the metadata are the numbers of members of [document_mapping] and of
    [inverted_index]; no object has two members with the same key, the
    doc_ids being written by [str]; each [document_frequency] is the length
    of its posting list. *)
Theorem saved_snapshot_well_formed (now : string) (self : indexes) :
  let data := _save_indexes docs_folder now self in
  total_documents (snapshot_metadata data) = Z.of_nat (length (document_mapping data))
  ∧ total_terms (snapshot_metadata data) = Z.of_nat (length (snapshot_inverted_index data))
  ∧ NoDup (document_mapping data).*1
  ∧ NoDup (snapshot_inverted_index data).*1
  ∧ NoDup (snapshot_positional_index data).*1
  ∧ Forall (fun entry => NoDup entry.2.*1) (snapshot_positional_index data)
  ∧ Forall (fun entry => document_frequency entry.2 = Z.of_nat (length (postings entry.2)))
           (snapshot_inverted_index data).
Proof.
  cbn zeta. unfold _save_indexes. cbn [snapshot_metadata total_documents total_terms
    document_mapping snapshot_inverted_index snapshot_positional_index].
  rewrite !length_fmap, !length_map_to_list. split_and!; [done|done| | | | |].
  - rewrite <- list_fmap_compose.
    rewrite (list_fmap_ext _ (Int.str ∘ fst) (map_to_list (doc_ids self)))
      by (by intros ? [??]).
    rewrite list_fmap_compose. apply (NoDup_fmap_2 _), NoDup_fst_map_to_list.
  - rewrite <- list_fmap_compose.
    rewrite (list_fmap_ext _ fst (map_to_list (inverted_index self))) by (by intros ? [??]).
    apply NoDup_fst_map_to_list.
  - rewrite <- list_fmap_compose.
    rewrite (list_fmap_ext _ fst (map_to_list (positional_index self))) by (by intros ? [??]).
    apply NoDup_fst_map_to_list.
  - apply Forall_fmap, Forall_forall. intros [term inner] _. cbn.
    rewrite <- list_fmap_compose.
    rewrite (list_fmap_ext _ (Int.str ∘ fst) (map_to_list inner)) by (by intros ? [??]).
    rewrite list_fmap_compose. apply (NoDup_fmap_2 _), NoDup_fst_map_to_list.
  - apply Forall_fmap, Forall_forall. by intros [term l] _.
Qed.

End StoreBehaviour.

Section Restart.

Variable stem : string → string.
Variable stop_words : gset string.
Variable docs_folder : string.
Variable read_document : string → read_result.

Local Abbreviation restart_build :=
  (build_from_scratch stem stop_words docs_folder read_document).
Local Abbreviation restart_init := (__init__ stem stop_words docs_folder read_document).

(** X18: an engine constructed without a snapshot builds its indexes and
    saves them; an engine constructed later on that snapshot has the very
    same indexes, positional index included, writes nothing, and does not
    look at the documents the folder holds by then. *)
Theorem restart_uses_snapshot (now later : string) (listing listing' : list string) :
  ∃ data,
    restart_init NoFile now listing = (restart_build listing, Some data)
    ∧ restart_init (File data) later listing' = (restart_build listing, None).
Proof.
  exists (_save_indexes docs_folder now (restart_build listing)). split; [done|].
  unfold __init__, _build_indexes.
  pose proof (snapshot_round_trip_eq docs_folder now (restart_build listing) empty_indexes) as Heq.
  destruct (load_saved docs_folder now (restart_build listing) empty_indexes)
    as (pos & Hload & _).
  rewrite Hload in Heq |- *. cbn in Heq. rewrite Heq; [done|].
  destruct (build_tidy stem stop_words docs_folder read_document listing) as [_ Hpos].
  intros term inner Hinner. by destruct (Hpos term inner Hinner).
Qed.

(** X19: when a key of [document_mapping] is not an integer, the snapshot
    is given up as a whole: the engine is built as without a snapshot, and
    the new indexes are saved. *)
Theorem fallback_on_document_map (data : snapshot) (now : string) (listing : list string) :
  ¬ integer_keys (document_mapping data) →
  restart_init (File data) now listing
  = (restart_build listing, Some (_save_indexes docs_folder now (restart_build listing))).
Proof.
  intros Hkeys. unfold __init__, _build_indexes, _load_indexes.
  destruct (load_document_mapping ∅ (document_mapping data)) as [ids|] eqn:E; [|done].
  destruct Hkeys. apply (load_document_mapping_keys (acc := ∅)). by eexists.
Qed.


End Restart.

(** ** Tokens and stop words *)

Lemma all_chars_rev_app f a b :
  all_chars f (String.rev_app a b) = all_chars f a && all_chars f b.
Proof.
  revert b. induction a as [|c a IH]; intros b; [done|].
  cbn [String.rev_app all_chars]. rewrite IH. cbn [all_chars].
  by destruct (f c), (all_chars f a), (all_chars f b).
Qed.

Lemma rev_app_nonempty a c b : String.rev_app a (String c b) ≠ EmptyString.
Proof. revert c b. induction a as [|c' a IH]; intros c b; [done|]. cbn. apply IH. Qed.

Lemma lower_not_upper c : Char.between 65 90 (Char.lower c) = false.
Proof. by destruct c as [[] [] [] [] [] [] [] []]. Qed.

Lemma all_chars_lower s :
  all_chars (fun c => negb (Char.between 65 90 c)) (Str.lower s) = true.
Proof.
  induction s as [|c s IH]; [done|]. cbn [Str.lower all_chars].
  by rewrite lower_not_upper, IH.
Qed.

Lemma findall_go_tokens (P : ascii → bool) prev cur s token :
  all_chars P s = true →
  (∀ run, cur = Some run →
          run ≠ EmptyString ∧ all_chars (fun c => Char.is_letter c && P c) run = true) →
  token ∈ Re.findall_go prev cur s →
  token ≠ EmptyString ∧ all_chars (fun c => Char.is_letter c && P c) token = true.
Proof.
  assert (∀ run, run ≠ EmptyString →
            all_chars (fun c => Char.is_letter c && P c) run = true →
            String.rev run ≠ EmptyString
            ∧ all_chars (fun c => Char.is_letter c && P c) (String.rev run) = true) as Hrev.
  { intros run Hne Hrun. unfold String.rev. split.
    - destruct run as [|c run]; [done|]. cbn [String.rev_app]. apply rev_app_nonempty.
    - by rewrite all_chars_rev_app, Hrun. }
  revert prev cur. induction s as [|c s IH]; intros prev cur Hs Hcur.
  - cbn. destruct cur as [run|]; cbn; [|by intros ?%elem_of_nil].
    intros ->%list_elem_of_singleton. destruct (Hcur run eq_refl). by apply Hrev.
  - cbn [all_chars] in Hs. apply andb_true_iff in Hs as [Hc Hs]. cbn [Re.findall_go].
    destruct cur as [run|].
    + destruct (Hcur run eq_refl) as [Hne Hrun].
      destruct (Char.is_letter c) eqn:Hl.
      * apply IH; [done|]. intros ? [= <-]. split; [done|]. cbn [all_chars].
        by rewrite Hl, Hc, Hrun.
      * destruct (Char.is_word c).
        -- by apply IH.
        -- intros [->|Hin]%elem_of_cons; [by apply Hrev|]. revert Hin. by apply IH.
    + destruct (Char.is_letter c && negb prev) eqn:Hl.
      * apply IH; [done|]. intros ? [= <-]. split; [done|]. cbn [all_chars].
        apply andb_true_iff in Hl as [-> _]. by rewrite Hc.
      * by apply IH.
Qed.

Lemma findall_words_lower text token :
  token ∈ Re.findall_words (Str.lower text) → is_lower_word token = true.
Proof.
  intros Hin.
  apply (findall_go_tokens (fun c => negb (Char.between 65 90 c))) in Hin as [Hne Hall];
    [|apply all_chars_lower|done].
  unfold is_lower_word. rewrite bool_decide_eq_false_2 by done. cbn [negb andb].
  revert Hall. apply all_chars_impl. intros c Hc. apply andb_true_iff in Hc as [Hl Hu].
  unfold Char.is_letter in Hl. by destruct (Char.between 65 90 c).
Qed.

Lemma preprocess_agree (stem : string → string) (stop_words1 stop_words2 : gset string)
    (start : Z) (tokens : list string) :
  Forall (fun token => token ∈ stop_words1 ↔ token ∈ stop_words2) tokens →
  omap (fun '(pos, token) =>
          if bool_decide (token ∈ stop_words1) then None else Some (stem token, pos))
       (enumerate start tokens)
  = omap (fun '(pos, token) =>
            if bool_decide (token ∈ stop_words2) then None else Some (stem token, pos))
         (enumerate start tokens).
Proof.
  intros Htokens. revert start.
  induction Htokens as [|token tokens Htoken _ IH]; intros start; [done|].
  cbn [enumerate omap list_omap]. rewrite (bool_decide_ext _ _ Htoken).
  unfold omap in IH. by rewrite IH.
Qed.

Section Tokens.

Variable stem : string → string.

(** X21: every term that [_preprocess_text] returns is the stem of a
    non-empty word of lower-case letters [a] to [z] that is no stop word:
    digits, underscores and letters outside [a-zA-Z] never make a term. *)
Theorem tokens_lower_case_words (stop_words : gset string) (text s : string) (p : Z) :
  (s, p) ∈ _preprocess_text stem stop_words text →
  ∃ token, s = stem token ∧ is_lower_word token = true ∧ token ∉ stop_words.
Proof.
  intros (token & _ & Hl & Hstop & <-)%elem_of_preprocess. exists token.
  split_and!; [done| |done]. by apply list_elem_of_lookup_2, findall_words_lower in Hl.
Qed.

(** X22: only the stop words that are words of lower-case letters have an
    effect: the tokens are compared after the text is lower-cased, the stop
    words are taken as they are. *)
Theorem stop_words_lower_case (stop_words : gset string) (text : string) :
  _preprocess_text stem stop_words text
  = _preprocess_text stem (filter (fun w => is_lower_word w = true) stop_words) text.
Proof.
  unfold _preprocess_text. apply preprocess_agree, Forall_forall.
  intros token Htoken%findall_words_lower. rewrite elem_of_filter. naive_solver.
Qed.

Lemma load_stop_words_lines (acc : gset string) lines w :
  w ∈ foldl (fun stop_words line =>
               let word := Str.strip line in
               if bool_decide (word = EmptyString) then stop_words
               else {[word]} ∪ stop_words)
            acc lines
  ↔ w ∈ acc ∨ (w ≠ EmptyString ∧ ∃ line, line ∈ lines ∧ Str.strip line = w).
Proof.
  revert acc. induction lines as [|line lines IH]; intros acc.
  - cbn. split; [by left|]. intros [?|(_ & line & ?%elem_of_nil & _)]; done.
  - cbn [foldl]. rewrite IH. case_bool_decide as Hline.
    + split.
      * intros [?|(? & line' & ? & ?)]; [by left|]. right. split; [done|].
        exists line'. split; [by right|done].
      * intros [?|(? & line' & [->|?]%elem_of_cons & ?)]; [by left|congruence|].
        right. split; [done|]. by exists line'.
    + rewrite elem_of_union, elem_of_singleton. split.
      * intros [[->|?]|(? & line' & ? & ?)].
        -- right. split; [done|]. exists line. split; [left|done].
        -- by left.
        -- right. split; [done|]. exists line'. split; [by right|done].
      * intros [?|(? & line' & [->|?]%elem_of_cons & ?)].
        -- left. by right.
        -- left. by left.
        -- right. split; [done|]. by exists line'.
Qed.

(** X23: with the stop words of [_load_stop_words], a token of a text is
    dropped exactly when it is a line of the stop-word file, white space at
    both ends of the line aside; every token is kept when there is no
    file. The positions count the dropped tokens. *)
Theorem stop_word_lines_drop_tokens (stop_words_file : string) (source : stop_words_source)
    (text s : string) (p : Z) :
  (s, p) ∈ _preprocess_text stem (_load_stop_words stop_words_file source).1 text
  ↔ ∃ token,
      0 ≤ p
      ∧ Re.findall_words (Str.lower text) !! Z.to_nat p = Some token
      ∧ stem token = s
      ∧ match source with
        | NotFound => True
        | Lines lines => ∀ line, line ∈ lines → Str.strip line ≠ token
        end.
Proof.
  rewrite elem_of_preprocess. apply exist_proper. intros token.
  destruct source as [|lines]; cbn [_load_stop_words fst].
  - rewrite elem_of_empty. naive_solver.
  - rewrite load_stop_words_lines, elem_of_empty. split.
    + intros (? & Hl & Hstop & ?). split_and!; [done..|].
      intros line Hline Hstrip. apply Hstop. right. split; [|by exists line].
      apply list_elem_of_lookup_2, findall_words_lower in Hl. by intros ->.
    + intros (? & ? & ? & Hlines). split_and!; [done..| |done].
      intros [[]|(_ & line & Hline & Hstrip)]. by apply (Hlines line).
Qed.

End Tokens.

(** ** Printing the results of a query *)

Lemma print_loop_known (self : indexes) acc ids :
  (∀ d, d ∈ ids → is_Some (doc_ids self !! d)) →
  print_loop (doc_ids self) acc ids = Some (acc ++ (shown_number self <$> ids)).
Proof.
  revert acc. induction ids as [|d ids IH]; intros acc Hids.
  - cbn. by rewrite app_nil_r.
  - cbn [print_loop]. destruct (Hids d) as [name Hname]; [left|].
    rewrite Hname, IH by (intros ??; apply Hids; by right).
    rewrite <- app_assoc. cbn. unfold shown_number at 2. by rewrite Hname.
Qed.

Section PrintedResults.

Variable stem : string → string.
Variable hash : string → Z.
Variable stop_words : gset string.
Variable docs_folder : string.
Variable read_document : string → read_result.

Local Abbreviation printing_engine :=
  (build_from_scratch stem stop_words docs_folder read_document).

(** X24: on the indexes of a build, [print_results] on the result of a
    query never fails to find a file name. It reports that nothing matches
    when the result is empty; else it prints one number for each document
    of the result, in ascending order: the first number in its file name,
    or its doc_id when the name has none. *)
Theorem query_results_print (listing : list string) (fuel : nat) (query : string)
    (ids : list Z) :
  value (process_query stem hash (printing_engine listing) fuel query) = Ok ids →
  print_results (printing_engine listing) ids
  = match ids with
    | [] => Printed None [no_matching_documents]
    | _ =>
        let result_str :=
          Str.join ", "
            (Int.str <$> sorted (shown_number (printing_engine listing) <$> ids)) in
        Printed (Some result_str) ["Result-Set: " +:+ result_str]
    end.
Proof.
  intros Hids. destruct ids as [|d ids]; [done|]. unfold print_results.
  rewrite print_loop_known; [done|].
  intros d' Hd'. apply process_query_result in Hids as [_ Hposted].
  destruct (Hposted d' Hd') as [term Hterm].
  by apply (build_posted_known stem stop_words docs_folder read_document) in Hterm.
Qed.

End PrintedResults.

(** ** Brackets that are closed *)

Lemma take_app p x : Str.take (String.length p) (p +:+ x) = p.
Proof. induction p as [|c p IH]; [by destruct x|]. rewrite app_cons. cbn. by rewrite IH. Qed.

Lemma take_app_nil p : Str.take (String.length p) p = p.
Proof. rewrite <- (app_nil_r_s p) at 2. apply take_app. Qed.

Lemma contains_char_lstrip c s :
  Str.contains (String c EmptyString) s = false →
  Str.contains (String c EmptyString) (Str.lstrip s) = false.
Proof.
  induction s as [|a s IH]; [done|]. cbn [Str.lstrip].
  destruct (Char.is_space a); [|done].
  rewrite contains_char_cons. intros [_ ?]%orb_false_iff. by apply IH.
Qed.

Lemma contains_char_rstrip c s :
  Str.contains (String c EmptyString) s = false →
  Str.contains (String c EmptyString) (Str.rstrip s) = false.
Proof.
  induction s as [|a s IH]; [done|].
  rewrite contains_char_cons. intros [Ha Hs]%orb_false_iff. cbn [Str.rstrip].
  specialize (IH Hs). destruct (Str.rstrip s) as [|b r'].
  - destruct (Char.is_space a); [done|]. by rewrite contains_char_cons, Ha.
  - by rewrite contains_char_cons, Ha, IH.
Qed.

Lemma contains_char_strip c s :
  Str.contains (String c EmptyString) s = false →
  Str.contains (String c EmptyString) (Str.strip s) = false.
Proof. intros Hs. by apply contains_char_rstrip, contains_char_lstrip. Qed.

Lemma contains_char_digits c s :
  Char.is_digit c = false → all_chars Char.is_digit s = true →
  Str.contains (String c EmptyString) s = false.
Proof.
  intros Hc. induction s as [|a s IH]; [done|]. cbn [all_chars].
  intros [Ha Hs]%andb_true_iff. rewrite contains_char_cons, (IH Hs), orb_false_r.
  apply bool_decide_eq_false_2. intros ->. congruence.
Qed.

Lemma contains_char_str c z :
  Char.is_digit c = false → c ≠ "-"%char →
  Str.contains (String c EmptyString) (Int.str z) = false.
Proof.
  intros Hc Hminus. unfold Int.str.
  destruct z as [|p|p]; cbn [Z.to_int NilZero.string_of_int].
  - change (Str.contains (String c EmptyString) "0" = false).
    rewrite contains_char_cons. cbn. rewrite orb_false_r.
    apply bool_decide_eq_false_2. intros ->. done.
  - pose proof (DecimalPos.Unsigned.to_uint_nonnil p) as Hp.
    rewrite (string_of_uint_nonnil _ Hp). apply contains_char_digits; [done|].
    apply string_of_uint_digits.
  - pose proof (DecimalPos.Unsigned.to_uint_nonnil p) as Hp.
    rewrite (string_of_uint_nonnil _ Hp), contains_char_cons.
    rewrite bool_decide_eq_false_2 by done.
    apply contains_char_digits; [done|]. apply string_of_uint_digits.
Qed.

Lemma placeholder_brackets z :
  Str.contains "(" ("RESULT_" +:+ Int.str z) = false
  ∧ Str.contains ")" ("RESULT_" +:+ Int.str z) = false.
Proof. rewrite !contains_char_app, !contains_char_str by done. done. Qed.

Lemma open_brackets_app d s t :
  open_brackets d (s +:+ t) = open_brackets (open_brackets d s) t.
Proof.
  revert d. induction s as [|c s IH]; intros d; [done|]. rewrite app_cons.
  cbn [open_brackets]. by destruct (Char.eqb c "("), (Char.eqb c ")").
Qed.

Lemma open_brackets_plain d s :
  Str.contains "(" s = false → Str.contains ")" s = false → open_brackets d s = d.
Proof.
  revert d. induction s as [|c s IH]; intros d; [done|].
  rewrite !contains_char_cons. intros [Ho Hs]%orb_false_iff [Hc Hs']%orb_false_iff.
  cbn [open_brackets]. unfold Char.eqb.
  rewrite (bool_decide_ext (c = "("%char) ("("%char = c)), Ho by done.
  rewrite (bool_decide_ext (c = ")"%char) (")"%char = c)), Hc by done. by apply IH.
Qed.

Lemma open_brackets_none d s : Str.contains "(" s = false → (open_brackets d s ≤ d)%nat.
Proof.
  revert d. induction s as [|c s IH]; intros d; [done|].
  rewrite contains_char_cons. intros [Ho Hs]%orb_false_iff.
  cbn [open_brackets]. unfold Char.eqb.
  rewrite (bool_decide_ext (c = "("%char) ("("%char = c)), Ho by done.
  destruct (bool_decide (c = ")"%char)); [|by apply IH].
  etrans; [by apply IH|]. lia.
Qed.

Lemma open_brackets_unclosed d s : Str.contains ")" s = false → (d ≤ open_brackets d s)%nat.
Proof.
  revert d. induction s as [|c s IH]; intros d; [done|].
  rewrite contains_char_cons. intros [Hc Hs]%orb_false_iff.
  cbn [open_brackets]. unfold Char.eqb.
  rewrite (bool_decide_ext (c = ")"%char) (")"%char = c)), Hc by done.
  destruct (bool_decide (c = "("%char)); [|by apply IH].
  etrans; [|by apply IH]. lia.
Qed.

Lemma opening_brackets_app s t :
  opening_brackets (s +:+ t) = (opening_brackets s + opening_brackets t)%nat.
Proof.
  induction s as [|c s IH]; [done|]. rewrite app_cons. cbn [opening_brackets].
  rewrite IH. by destruct (Char.eqb c "(").
Qed.

Lemma opening_brackets_none s : Str.contains "(" s = false ↔ opening_brackets s = 0%nat.
Proof.
  induction s as [|c s IH]; [done|]. rewrite contains_char_cons, orb_false_iff, IH.
  cbn [opening_brackets]. unfold Char.eqb.
  rewrite (bool_decide_ext (c = "("%char) ("("%char = c)) by done.
  destruct (bool_decide ("("%char = c)); naive_solver.
Qed.

(** The scan with an open bracket on the stack stops at the first closing
    bracket; it fails exactly when there is none. *)
Lemma find_group_open i top stack s :
  find_group i (top :: stack) s = None → Str.contains ")" s = false.
Proof.
  revert i top stack. induction s as [|c s IH]; intros i top stack; [done|].
  cbn [find_group]. rewrite contains_char_cons. unfold Char.eqb.
  destruct (bool_decide (c = "("%char)) eqn:Ho.
  - apply bool_decide_eq_true in Ho as ->. intros ?%IH.
    by rewrite bool_decide_eq_false_2.
  - destruct (bool_decide (c = ")"%char)) eqn:Hc; [done|].
    apply bool_decide_eq_false in Hc. intros ?%IH.
    rewrite bool_decide_eq_false_2; [done|]. by intros <-.
Qed.

Lemma find_group_fails i s :
  find_group i [] s = None → Str.contains "(" s = true → open_brackets 0 s ≠ 0%nat.
Proof.
  revert i. induction s as [|c s IH]; intros i; [done|].
  cbn [find_group open_brackets]. rewrite contains_char_cons. unfold Char.eqb.
  destruct (bool_decide (c = "("%char)) eqn:Ho.
  - intros Hs%find_group_open _. pose proof (open_brackets_unclosed 1 s Hs). lia.
  - apply bool_decide_eq_false in Ho. rewrite (bool_decide_eq_false_2 ("("%char = c))
      by (by intros <-).
    cbn [orb]. destruct (bool_decide (c = ")"%char)); apply IH.
Qed.

(** The group that the scan finds: the bracket it opens with, a part
    without brackets, and the bracket that closes it. *)
Lemma find_group_found before s stack a b :
  find_group (String.length before) stack s = Some (a, b) →
  match stack with
  | [] => True
  | top :: _ =>
      ∃ pre inner, before = pre +:+ "(" +:+ inner ∧ String.length pre = top
                   ∧ Str.contains "(" inner = false ∧ Str.contains ")" inner = false
  end →
  ∃ pre inner post,
    before +:+ s = pre +:+ "(" +:+ inner +:+ ")" +:+ post
    ∧ String.length pre = a
    ∧ b = (a + 1 + String.length inner)%nat
    ∧ Str.contains "(" inner = false ∧ Str.contains ")" inner = false.
Proof.
  revert before stack. induction s as [|c s IH]; intros before stack; [done|].
  cbn [find_group]. unfold Char.eqb.
  assert (String.length (before +:+ String c EmptyString) = S (String.length before))
    as Hlen by (rewrite app_length_s; cbn; lia).
  assert (before +:+ String c s = (before +:+ String c EmptyString) +:+ s) as Happ
    by (by rewrite app_assoc_s).
  destruct (bool_decide (c = "("%char)) eqn:Ho.
  - apply bool_decide_eq_true in Ho as ->. rewrite <- Hlen, Happ. intros Hfind _.
    apply IH in Hfind; [done|]. exists before, EmptyString. by rewrite app_nil_r_s.
  - apply bool_decide_eq_false in Ho. destruct (bool_decide (c = ")"%char)) eqn:Hc.
    + apply bool_decide_eq_true in Hc as ->. destruct stack as [|top stack].
      * rewrite <- Hlen, Happ. intros Hfind _. by apply IH in Hfind.
      * intros [= <- <-] (pre & inner & -> & Hpre & Hin1 & Hin2).
        exists pre, inner, s. rewrite !app_assoc_s. split_and!; [done|done| |done|done].
        rewrite !app_length_s. cbn. lia.
    + apply bool_decide_eq_false in Hc. rewrite <- Hlen, Happ. intros Hfind Hstack.
      apply IH in Hfind; [done|]. destruct stack as [|top stack]; [done|].
      destruct Hstack as (pre & inner & -> & Hpre & Hin1 & Hin2).
      exists pre, (inner +:+ String c EmptyString). rewrite !app_assoc_s.
      split_and!; [done|done| |].
      * rewrite contains_char_app, Hin1, contains_char_cons.
        rewrite bool_decide_eq_false_2 by (by intros <-). done.
      * rewrite contains_char_app, Hin2, contains_char_cons.
        rewrite bool_decide_eq_false_2 by (by intros <-). done.
Qed.

(** One step of [_process_bracketed_query]: the group handed to
    [_process_boolean_query] has no bracket, and the query that replaces it
    has one opening bracket less and the same brackets left open. *)
Lemma find_group_step query a b z :
  find_group 0 [] query = Some (a, b) →
  let inner_expr := Str.strip (Str.slice (S a) b query) in
  let new_query :=
    Str.take a query +:+ ("RESULT_" +:+ Int.str z) +:+ Str.drop (S b) query in
  Str.contains "(" inner_expr = false
  ∧ S (opening_brackets new_query) = opening_brackets query
  ∧ open_brackets 0 new_query = open_brackets 0 query.
Proof.
  intros Hfind. apply (find_group_found EmptyString) in Hfind; [|done].
  destruct Hfind as (pre & inner & post & Hq & <- & -> & Hin1 & Hin2). 
  change (EmptyString +:+ query) with query in Hq. subst query.
  destruct (placeholder_brackets z) as [Hp1 Hp2]. cbn zeta.
  set (placeholder := "RESULT_" +:+ Int.str z) in *. clearbody placeholder.
  rewrite take_app.
  replace (Str.drop (S (String.length pre + 1 + String.length inner))
             (pre +:+ "(" +:+ inner +:+ ")" +:+ post)) with post.
  2:{ rewrite <- (drop_app (pre +:+ "(" +:+ inner +:+ ")") post) at 1.
      rewrite !app_length_s, !app_assoc_s. cbn [String.length]. f_equal. lia. }
  replace (Str.slice (S (String.length pre)) (String.length pre + 1 + String.length inner)
             (pre +:+ "(" +:+ inner +:+ ")" +:+ post)) with inner.
  2:{ unfold Str.slice.
      replace (Str.drop (S (String.length pre)) (pre +:+ "(" +:+ inner +:+ ")" +:+ post))
        with (inner +:+ ")" +:+ post).
      2:{ rewrite <- (drop_app (pre +:+ "(") (inner +:+ ")" +:+ post)) at 1.
          rewrite !app_length_s, !app_assoc_s. cbn [String.length]. f_equal. lia. }
      replace (String.length pre + 1 + String.length inner - S (String.length pre))%nat
        with (String.length inner) by lia.
      by rewrite take_app. }
  split_and!.
  - by apply contains_char_strip.
  - rewrite !opening_brackets_app.
    apply opening_brackets_none in Hin1, Hp1. rewrite Hin1, Hp1.
    change (opening_brackets "(") with 1%nat. change (opening_brackets ")") with 0%nat. lia.
  - rewrite !open_brackets_app. rewrite (open_brackets_plain _ _ Hp1 Hp2).
    cbn [open_brackets]. cbn. by rewrite (open_brackets_plain _ _ Hin1 Hin2).
Qed.

Section ClosedBrackets.

Variable stem : string → string.
Variable hash : string → Z.
Variable self : indexes.

Lemma flat_query_returns fuel query :
  Str.contains "(" query = false →
  is_Some (_process_boolean_query stem hash self (S fuel) query).
Proof. intros Hq. rewrite boolean_query_unfold, Hq. by eexists. Qed.

Lemma bracketed_query_returns n :
  ∀ fuel query,
    opening_brackets query = n → open_brackets 0 query = 0%nat → (n + 2 ≤ fuel)%nat →
    is_Some (_process_bracketed_query stem hash self fuel query).
Proof.
  induction n as [|n IH]; intros fuel query Hn Hclosed Hfuel.
  - destruct fuel as [|[|fuel]]; [lia..|]. apply opening_brackets_none in Hn.
    rewrite bracketed_query_unfold, Hn. cbn [negb]. by apply flat_query_returns.
  - destruct fuel as [|[|fuel]]; [lia..|].
    assert (Str.contains "(" query = true) as Hopen.
    { destruct (Str.contains "(" query) eqn:E; [done|].
      apply opening_brackets_none in E. lia. }
    rewrite bracketed_query_unfold, Hopen. cbn [negb].
    destruct (find_group 0 [] query) as [[a b]|] eqn:Hfind.
    2:{ by destruct (find_group_fails 0 query Hfind Hopen). }
    destruct (flat_query_returns fuel (Str.strip (Str.slice (S a) b query))) as [inner Hinner].
    { by apply (find_group_step query a b 0). }
    rewrite Hinner. cbn [mbind option_bind].
    destruct (find_group_step query a b (hash (Int.str_list inner)) Hfind) as (_ & Hcount & Hsame).
    cbn zeta in Hcount, Hsame.
    destruct (IH (S fuel)
                (Str.take a query +:+ ("RESULT_" +:+ Int.str (hash (Int.str_list inner)))
                 +:+ Str.drop (S b) query)) as [final Hfinal]; [lia|by rewrite Hsame|lia|].
    rewrite Hfinal. cbn [mbind option_bind].
    destruct (match final with [d] => Str.startswith "RESULT_" (Int.str d) | _ => false end);
      [by eexists|].
    destruct (Re.split _); by eexists.
Qed.

Lemma open_bracket_loops fuel :
  ∀ query,
    open_brackets 0 query ≠ 0%nat →
    _process_boolean_query stem hash self fuel query = None
    ∧ _process_bracketed_query stem hash self fuel query = None.
Proof.
  induction fuel as [|fuel IH]; intros query Hopen; [done|].
  assert (Str.contains "(" query = true) as Hq.
  { destruct (Str.contains "(" query) eqn:E; [done|].
    pose proof (open_brackets_none 0 query E). lia. }
  rewrite boolean_query_unfold, bracketed_query_unfold, Hq. cbn [negb].
  destruct (IH query Hopen) as [Hb Hk]. split; [done|].
  destruct (find_group 0 [] query) as [[a b]|] eqn:Hfind; [|done].
  destruct (_process_boolean_query stem hash self fuel (Str.strip (Str.slice (S a) b query)))
    as [inner|]; [|done].
  cbn [mbind option_bind].
  destruct (find_group_step query a b (hash (Int.str_list inner)) Hfind) as (_ & _ & Hsame).
  cbn zeta in Hsame.
  destruct (IH (Str.take a query +:+ ("RESULT_" +:+ Int.str (hash (Int.str_list inner)))
                +:+ Str.drop (S b) query)) as [_ Hnew]; [by rewrite Hsame|].
  by rewrite Hnew.
Qed.

(** X25: a boolean query in which every opening bracket is closed returns
    a result as soon as the interpreter allows a depth of calls of the
    number of opening brackets plus three. *)
Theorem closed_brackets_return (fuel : nat) (query : string) :
  Str.contains "/" query = false →
  is_boolean query = true →
  open_brackets 0 query = 0%nat →
  (opening_brackets query + 3 ≤ fuel)%nat →
  ∃ ids, value (process_query stem hash self fuel query) = Ok ids.
Proof.
  intros Hslash Hbool Hclosed Hfuel. unfold process_query. rewrite Hslash, Hbool. cbn [value].
  destruct fuel as [|fuel]; [lia|]. rewrite boolean_query_unfold.
  destruct (Str.contains "(" query); [|by eexists].
  destruct (bracketed_query_returns (opening_brackets query) fuel query) as [ids ->];
    [done|done|lia|]. by eexists.
Qed.

(** X26: a boolean query with an opening bracket that no later closing
    bracket closes raises [RecursionError] whatever depth of calls the
    interpreter allows. *)
Theorem open_bracket_raises (fuel : nat) (query : string) :
  Str.contains "/" query = false →
  is_boolean query = true →
  open_brackets 0 query ≠ 0%nat →
  value (process_query stem hash self fuel query) = Raise RecursionError.
Proof.
  intros Hslash Hbool Hopen. unfold process_query. rewrite Hslash, Hbool.
  by destruct (open_bracket_loops fuel query Hopen) as [-> _].
Qed.

End ClosedBrackets.

(** ** The interactive loop *)


Section Sessions.

Variable stem : string → string.
Variable hash : string → Z.
Variable stop_words : gset string.
Variable docs_folder : string.
Variable read_document : string → read_result.

Local Abbreviation session_engine :=
  (build_from_scratch stem stop_words docs_folder read_document).



End Sessions.

(** ** The properties on the example corpus *)

Local Abbreviation example_query :=
  (process_query Example.plain_stem Example.constant_hash Example.engine).

Lemma query_result_sorted_witness :
  value (example_query 10 "bird OR (dog AND cat)") = Ok [0; 2] ∧ Sorted Z.le [0; 2].
Proof.
  split; [vm_compute; reflexivity|].
  apply (query_result_sorted Example.plain_stem Example.constant_hash Example.engine 10
           "bird OR (dog AND cat)" [0; 2]).
  vm_compute; reflexivity.
Defined.

Lemma query_result_posted_witness :
  value (example_query 10 "bird OR (dog AND cat)") = Ok [0; 2]
  ∧ 2 ∈ [0; 2]
  ∧ posted Example.engine 2.
Proof.
  split_and!; [vm_compute; reflexivity|by right; left|].
  apply (query_result_posted Example.plain_stem Example.constant_hash Example.engine 10
           "bird OR (dog AND cat)" [0; 2] 2); [vm_compute; reflexivity|by right; left].
Defined.


Lemma closed_brackets_return_witness :
  Str.contains "/" "bird OR (dog AND cat)" = false
  ∧ is_boolean "bird OR (dog AND cat)" = true
  ∧ open_brackets 0 "bird OR (dog AND cat)" = 0%nat
  ∧ (opening_brackets "bird OR (dog AND cat)" + 3 ≤ 4)%nat
  ∧ ∃ ids, value (example_query 4 "bird OR (dog AND cat)") = Ok ids.
Proof.
  split_and!; [reflexivity|reflexivity|reflexivity|vm_compute; lia|].
  apply (closed_brackets_return Example.plain_stem Example.constant_hash Example.engine 4
           "bird OR (dog AND cat)"); [reflexivity|reflexivity|reflexivity|vm_compute; lia].
Defined.

Lemma open_bracket_raises_witness :
  Str.contains "/" "cat AND ((dog) OR bird" = false
  ∧ is_boolean "cat AND ((dog) OR bird" = true
  ∧ open_brackets 0 "cat AND ((dog) OR bird" ≠ 0%nat
  ∧ value (example_query 1000 "cat AND ((dog) OR bird") = Raise RecursionError.
Proof.
  split_and!; [reflexivity|reflexivity|vm_compute; lia|].
  apply (open_bracket_raises Example.plain_stem Example.constant_hash Example.engine 1000
           "cat AND ((dog) OR bird"); [reflexivity|reflexivity|vm_compute; lia].
Defined.

Lemma and_within_or_witness :
  plain_term "cat" = true ∧ plain_term "dog" = true
  ∧ value (example_query 10 (binary_query "cat" "AND" "dog")) = Ok [0]
  ∧ value (example_query 10 (binary_query "cat" "OR" "dog")) = Ok [0; 2]
  ∧ [0] ⊆ [0; 2].
Proof.
  split_and!; [reflexivity|reflexivity|vm_compute; reflexivity|vm_compute; reflexivity|].
  apply (and_within_or Example.plain_stem Example.constant_hash Example.engine 9 "cat" "dog");
    [reflexivity|reflexivity|vm_compute; reflexivity|vm_compute; reflexivity].
Defined.

Lemma and_or_commute_witness :
  plain_term "cat" = true ∧ plain_term "dog" = true
  ∧ example_query 10 (binary_query "cat" "AND" "dog")
    = example_query 10 (binary_query "dog" "AND" "cat")
  ∧ example_query 10 (binary_query "cat" "OR" "dog")
    = example_query 10 (binary_query "dog" "OR" "cat").
Proof.
  split_and!; [reflexivity|reflexivity|..];
    apply (and_or_commute Example.plain_stem Example.constant_hash Example.engine 9
             "cat" "dog"); reflexivity.
Defined.

Lemma and_not_split_witness :
  plain_term "cat" = true ∧ plain_term "dog" = true
  ∧ value (example_query 10 (binary_query "cat" "AND" "dog")) = Ok [0]
  ∧ value (example_query 10 (binary_query "cat" "NOT" "dog")) = Ok [2]
  ∧ (2 ∈ get (inverted_index Example.engine) (Example.plain_stem (Str.lower "cat"))
     ↔ 2 ∈ [0] ∨ 2 ∈ [2])
  ∧ ¬ (2 ∈ [0] ∧ 2 ∈ [2]).
Proof.
  split_and!; [reflexivity|reflexivity|vm_compute; reflexivity|vm_compute; reflexivity|..];
    apply (and_not_split Example.plain_stem Example.constant_hash Example.engine 9
             "cat" "dog" [0] [2] 2);
    first [reflexivity|vm_compute; reflexivity].
Defined.

Lemma proximity_monotone_witness :
  is_term "cat" = true ∧ is_term "saw" = true ∧ 0 ≤ 1 ∧ 1 ≤ 2
  ∧ value (example_query 1 (proximity_query "cat" "saw" 1)) = Ok [0]
  ∧ value (example_query 1 (proximity_query "cat" "saw" 2)) = Ok [0; 2]
  ∧ [0] ⊆ [0; 2].
Proof.
  split_and!; [reflexivity|reflexivity|lia|lia|vm_compute; reflexivity|vm_compute; reflexivity|].
  apply (proximity_monotone Example.plain_stem Example.constant_hash Example.engine 1
           "cat" "saw" 1 2);
    [reflexivity|reflexivity|lia|lia|vm_compute; reflexivity|vm_compute; reflexivity].
Defined.

Lemma proximity_within_and_witness :
  plain_term "cat" = true ∧ plain_term "saw" = true ∧ 0 ≤ 1
  ∧ value (example_query 10 (proximity_query "cat" "saw" 1)) = Ok [0]
  ∧ value (example_query 10 (binary_query "cat" "AND" "saw")) = Ok [0; 2]
  ∧ [0] ⊆ [0; 2].
Proof.
  split_and!; [reflexivity|reflexivity|lia|vm_compute; reflexivity|vm_compute; reflexivity|].
  apply (proximity_within_and Example.plain_stem Example.constant_hash Example.engine 9
           "cat" "saw" 1);
    [reflexivity|reflexivity|lia|vm_compute; reflexivity|vm_compute; reflexivity].
Defined.

Lemma simple_query_finds_documents_witness :
  Str.contains "/" " Cat " = false
  ∧ is_boolean " Cat " = false
  ∧ value (process_query Example.plain_stem Example.constant_hash
             (build_from_scratch Example.plain_stem Example.stop_words "docs"
                Example.read_document Example.listing) 10 " Cat ") = Ok [0; 2]
  ∧ (2 ∈ [0; 2] ↔
     ∃ name text token,
       0 ≤ 2
       ∧ Example.listing !! Z.to_nat 2 = Some name
       ∧ Str.endswith ".txt" name = true
       ∧ Example.read_document (path_join "docs" name) = Content text
       ∧ token ∈ Re.findall_words (Str.lower text)
       ∧ token ∉ Example.stop_words
       ∧ Example.plain_stem token = Example.plain_stem (Str.lower (Str.strip " Cat "))).
Proof.
  split_and!; [reflexivity|reflexivity|vm_compute; reflexivity|].
  apply (simple_query_finds_documents Example.plain_stem Example.constant_hash
           Example.stop_words "docs" Example.read_document Example.listing 10 " Cat ");
    [reflexivity|reflexivity|vm_compute; reflexivity].
Defined.

Lemma query_result_known_witness :
  value (process_query Example.plain_stem Example.constant_hash
           (build_from_scratch Example.plain_stem Example.stop_words "docs"
              Example.read_document Example.listing) 10 "bird OR (dog AND cat)") = Ok [0; 2]
  ∧ 2 ∈ [0; 2]
  ∧ is_Some (doc_ids (build_from_scratch Example.plain_stem Example.stop_words "docs"
                        Example.read_document Example.listing) !! 2).
Proof.
  split_and!; [vm_compute; reflexivity|by right; left|].
  apply (query_result_known Example.plain_stem Example.constant_hash Example.stop_words
           "docs" Example.read_document Example.listing 10 "bird OR (dog AND cat)" [0; 2] 2);
    [vm_compute; reflexivity|by right; left].
Defined.

Lemma query_results_print_witness :
  value (process_query Example.plain_stem Example.constant_hash
           (build_from_scratch Example.plain_stem Example.stop_words "docs"
              Example.read_document Example.listing) 10 "bird OR (dog AND cat)") = Ok [0; 2]
  ∧ print_results (build_from_scratch Example.plain_stem Example.stop_words "docs"
                     Example.read_document Example.listing) [0; 2]
    = Printed (Some "0, 2") ["Result-Set: 0, 2"].
Proof.
  split; [vm_compute; reflexivity|].
  rewrite (query_results_print Example.plain_stem Example.constant_hash Example.stop_words
             "docs" Example.read_document Example.listing 10 "bird OR (dog AND cat)" [0; 2]);
    vm_compute; reflexivity.
Defined.

Lemma tokens_lower_case_words_witness :
  ("dogs", 3) ∈ _preprocess_text Example.plain_stem Example.stop_words "The Cat saw 2 dogs"
  ∧ ∃ token, "dogs" = Example.plain_stem token ∧ is_lower_word token = true
             ∧ token ∉ Example.stop_words.
Proof.
  assert (("dogs", 3)
          ∈ _preprocess_text Example.plain_stem Example.stop_words "The Cat saw 2 dogs") as Hin.
  { replace (_preprocess_text Example.plain_stem Example.stop_words "The Cat saw 2 dogs")
      with [("cat", 1); ("saw", 2); ("dogs", 3)] by (vm_compute; reflexivity).
    by right; right; left. }
  split; [exact Hin|].
  exact (tokens_lower_case_words Example.plain_stem Example.stop_words
           "The Cat saw 2 dogs" "dogs" 3 Hin).
Defined.

(** A snapshot whose document map has a key that is no integer. *)
Lemma fallback_on_document_map_witness :
  let data :=
    Snapshot (Metadata 1 0 "2024-01-01") [("first", DocInfo "a.txt" "docs/a.txt")] [] [] in
  ¬ integer_keys (document_mapping data)
  ∧ __init__ Example.plain_stem Example.stop_words "docs" Example.read_document
      (File data) "2024-01-02" Example.listing
    = (Example.engine, Some (_save_indexes "docs" "2024-01-02" Example.engine)).
Proof.
  cbn zeta.
  assert (¬ integer_keys [("first", DocInfo "a.txt" "docs/a.txt")]) as Hkeys.
  { intros Hall. apply Forall_cons in Hall as [[k Hk] _]. vm_compute in Hk. discriminate. }
  split; [exact Hkeys|].
  exact (fallback_on_document_map Example.plain_stem Example.stop_words "docs"
           Example.read_document
           (Snapshot (Metadata 1 0 "2024-01-01") [("first", DocInfo "a.txt" "docs/a.txt")] [] [])
           "2024-01-02" Example.listing Hkeys).
Defined.

